(** * Segmentation metrics and training utilities of imgclsmob: a shallow embedding

    The development follows two source files:
    - [gluon/seg_metrics_np.py], the segmentation metrics on numpy arrays;
    - [tensorflow_/utils_tp.py], the tensorpack training utilities.

    Conventions of the embedding.
    - Python integers and numpy integer counts are [Z].
    - A numpy array is its shape and its elements in row-major order.  An
      index mask has numpy's default integer type, [int64]: adding to its
      elements wraps around at the ends of that type.
    - A double precision value is the exact rational it stands for, kept in
      lowest terms ([Qred]) after every operation, together with the three
      non-finite IEEE values.  Its rounding is not modelled: a quotient of
      two counts is the rational quotient.  Signed zeros are not
      distinguished.
    - [segm_mean_iou2] works on MXNet arrays of type [float32], where the
      epsilon it adds is lost next to a count of two or more: there every
      operation is the IEEE 754 binary32 one, rounding included.
    - A Python exception is a constructor of [exn]; a call that may raise
      returns a [result].
    - [seg_mean_iou_imasks_np] updates its arguments in place, so arrays
      live in a store and that function threads the store. *)

From Stdlib Require Import ZArith QArith Qround Lia Lqa List.
From Stdlib Require SpecFloat.
From stdpp Require Import base option list gmap strings.

Local Open Scope Z_scope.

(* ================================================================== *)
(** * Part I: definitions                                              *)
(* ================================================================== *)

(** ** Python exceptions *)

Inductive exn : Type :=
| AssertionError
| ZeroDivisionError
| ValueError
| TypeError
| AttributeError
| CvError.

Inductive result (A : Type) : Type :=
| Ok (a : A)
| Raise (e : exn).

Arguments Ok {A} a.
Arguments Raise {A} e.

#[global] Instance result_ret : MRet result := fun A a => Ok a.
#[global] Instance result_bind : MBind result := fun A B k r =>
  match r with
  | Ok a => k a
  | Raise e => Raise e
  end.

(** [assert c] *)
Definition py_assert (c : bool) : result unit :=
  if c then Ok tt else Raise AssertionError.

(** ** Floating-point values *)

Inductive npfloat : Type :=
| Fin (q : Q)
| PosInf
| NegInf
| NaN.

(** [float(k)] of an integer, and [np.finfo(np.float32).eps], which is 2^-23. *)
Definition float_of_int (k : Z) : npfloat := Fin (inject_Z k).
Definition eps : Q := 1 # 8388608.

Definition fadd (x y : npfloat) : npfloat :=
  match x, y with
  | NaN, _ | _, NaN => NaN
  | PosInf, NegInf | NegInf, PosInf => NaN
  | PosInf, _ | _, PosInf => PosInf
  | NegInf, _ | _, NegInf => NegInf
  | Fin a, Fin b => Fin (Qred (a + b))
  end.

Definition fneg (x : npfloat) : npfloat :=
  match x with
  | Fin a => Fin (Qred (- a))
  | PosInf => NegInf
  | NegInf => PosInf
  | NaN => NaN
  end.

(** Sign test used by the division: [true] when the value is negative. *)
Definition Qneg_bool (a : Q) : bool := (Qnum a <? 0)%Z.

(** numpy's true division: a zero divisor gives an infinity or a NaN
    (with a warning), never an exception. *)
Definition np_truediv (x y : npfloat) : npfloat :=
  match x, y with
  | NaN, _ | _, NaN => NaN
  | Fin a, Fin b =>
      if Qeq_bool b 0 then
        if Qeq_bool a 0 then NaN
        else if Qneg_bool a then NegInf else PosInf
      else Fin (Qred (a / b))
  | Fin _, (PosInf | NegInf) => Fin 0
  | (PosInf | NegInf), (PosInf | NegInf) => NaN
  | PosInf, Fin b => if Qneg_bool b then NegInf else PosInf
  | NegInf, Fin b => if Qneg_bool b then PosInf else NegInf
  end.

(** Python's true division of a [float] by an [int]: a zero divisor raises. *)
Definition py_truediv (x : npfloat) (k : Z) : result npfloat :=
  if k =? 0 then Raise ZeroDivisionError
  else Ok (np_truediv x (float_of_int k)).

(** ** numpy arrays *)

Record ndarray : Type := mk_ndarray {
  shape : list nat;
  data : list Z
}.

(** [a.size]: the product of the dimensions. *)
Definition size_of (sh : list nat) : nat := foldr Nat.mul 1%nat sh.
Definition np_size (a : ndarray) : Z := Z.of_nat (size_of (shape a)).

(** The invariant of every numpy array. *)
Definition wf_ndarray (a : ndarray) : Prop :=
  length (data a) = size_of (shape a).

Definition shape_eqb (s t : list nat) : bool := bool_decide (s = t).

(** Elementwise comparisons, giving boolean arrays. *)
Definition np_eq (a b : list Z) : list bool := zip_with Z.eqb a b.
Definition np_eq_scalar (a : list Z) (k : Z) : list bool := map (fun v => v =? k) a.
Definition np_ne_scalar (a : list Z) (k : Z) : list bool :=
  map (fun v => negb (v =? k)) a.
Definition np_lt_scalar (a : list Z) (k : Z) : list bool := map (fun v => v <? k) a.
Definition np_ge_scalar (a : list Z) (k : Z) : list bool := map (fun v => k <=? v) a.
Definition np_gt_scalar (a : list Z) (k : Z) : list bool := map (fun v => k <? v) a.

(** Truth value of the elements, as [np.logical_and] takes it. *)
Definition np_truthy (a : list Z) : list bool := map (fun v => negb (v =? 0)) a.
Definition np_logical_and (a b : list bool) : list bool := zip_with andb a b.

(** [astype] of a boolean array to an integer type. *)
Definition np_astype_int (a : list bool) : list Z :=
  map (fun b : bool => if b then 1 else 0) a.

Definition np_mul (a b : list Z) : list Z := zip_with Z.mul a b.

(** The two ends of [int64], and the value that an [int64] operation stores
    for the integer [v]: the one congruent to [v] modulo 2^64. *)
Definition int64_min : Z := - 2 ^ 63.
Definition wrap_int64 (v : Z) : Z := (v - int64_min) mod 2 ^ 64 + int64_min.

(** [a + k] on an [int64] array. *)
Definition np_add_scalar (a : list Z) (k : Z) : list Z :=
  map (fun v => wrap_int64 (v + k)) a.

(** [np.sum] of an integer array and of a boolean array. *)
Definition np_sum (a : list Z) : Z := foldr Z.add 0 a.
Definition np_sum_bool (a : list bool) : Z := np_sum (np_astype_int a).
Definition np_any (a : list bool) : bool := existsb id a.

(** ** [seg_metrics_np.py] *)

Definition seg_pixel_accuracy_np (label_imask pred_imask : ndarray)
    (vague_idx : Z) (use_vague : bool) : result npfloat :=
  py_assert (shape_eqb (shape label_imask) (shape pred_imask)) ;;
  if use_vague then
    let sum_u_ij := np_sum_bool (np_ne_scalar (data label_imask) vague_idx) in
    if sum_u_ij =? 0 then Ok (Fin 0)
    else
      let sum_u_ii :=
        np_sum_bool (np_logical_and (np_eq (data pred_imask) (data label_imask))
                                    (np_ne_scalar (data label_imask) vague_idx)) in
      Ok (np_truediv (float_of_int sum_u_ii) (float_of_int sum_u_ij))
  else
    let sum_u_ii := np_sum_bool (np_eq (data pred_imask) (data label_imask)) in
    let sum_u_ij := np_size pred_imask in
    py_truediv (float_of_int sum_u_ii) sum_u_ij.

(** [a[i, :, :]] of an array whose leading axis enumerates the planes. *)
Definition plane_size (a : ndarray) : nat := size_of (tail (shape a)).
Definition np_plane (a : ndarray) (i : nat) : list Z :=
  take (plane_size a) (drop (i * plane_size a) (data a)).

(** [a.shape[0]] *)
Definition shape0 (a : ndarray) : nat := hd 0%nat (shape a).
Definition ndim (a : ndarray) : nat := length (shape a).

Definition segm_mean_accuracy_hmasks (label_hmask pred_hmask : ndarray)
    : result npfloat :=
  py_assert (shape_eqb (shape pred_hmask) (shape label_hmask)) ;;
  py_assert (ndim pred_hmask =? 3)%nat ;;
  let n := shape0 label_hmask in
  let '(i_sum, acc_sum) :=
    fold_left (fun '(i_sum, acc_sum) i =>
      let class_i_pred_mask := np_plane pred_hmask i in
      let class_i_label_mask := np_plane label_hmask i in
      let u_i := np_sum class_i_label_mask in
      if u_i =? 0 then (i_sum, acc_sum)
      else
        let u_ii := np_sum_bool (np_logical_and (np_truthy class_i_pred_mask)
                                                (np_truthy class_i_label_mask)) in
        let class_acc := np_truediv (float_of_int u_ii) (float_of_int u_i) in
        (i_sum + 1, fadd acc_sum class_acc))
      (seq 0 n) (0, Fin 0) in
  Ok (if 0 <? i_sum then np_truediv acc_sum (float_of_int i_sum) else Fin 1).

Definition segm_mean_accuracy (label_hmask pred_imask : ndarray)
    : result npfloat :=
  py_assert (ndim label_hmask =? 3)%nat ;;
  py_assert (ndim pred_imask =? 2)%nat ;;
  py_assert (shape_eqb (shape pred_imask) (tail (shape label_hmask))) ;;
  let n := shape0 label_hmask in
  let '(i_sum, acc_sum) :=
    fold_left (fun '(i_sum, acc_sum) i =>
      let class_i_pred_mask := np_eq_scalar (data pred_imask) (Z.of_nat i) in
      let class_i_label_mask := np_plane label_hmask i in
      let u_i := np_sum class_i_label_mask in
      if u_i =? 0 then (i_sum, acc_sum)
      else
        let u_ii := np_sum_bool (np_logical_and class_i_pred_mask
                                                (np_truthy class_i_label_mask)) in
        let class_acc := np_truediv (float_of_int u_ii) (float_of_int u_i) in
        (i_sum + 1, fadd acc_sum class_acc))
      (seq 0 n) (0, Fin 0) in
  Ok (if 0 <? i_sum then np_truediv acc_sum (float_of_int i_sum) else Fin 1).

Definition segm_mean_iou_imasks (label_hmask pred_hmask : ndarray)
    : result npfloat :=
  py_assert (shape_eqb (shape pred_hmask) (shape label_hmask)) ;;
  py_assert (ndim pred_hmask =? 3)%nat ;;
  let n := shape0 label_hmask in
  let '(i_sum, acc_sum) :=
    fold_left (fun '(i_sum, acc_sum) i =>
      let class_i_pred_mask := np_plane pred_hmask i in
      let class_i_label_mask := np_plane label_hmask i in
      let u_i := np_sum class_i_label_mask in
      if u_i =? 0 then (i_sum, acc_sum)
      else
        let u_ii := np_sum_bool (np_logical_and (np_truthy class_i_pred_mask)
                                                (np_truthy class_i_label_mask)) in
        let class_acc := np_truediv (float_of_int u_ii) (float_of_int u_i) in
        (i_sum + 1, fadd acc_sum class_acc))
      (seq 0 n) (0, Fin 0) in
  Ok (if 0 <? i_sum then np_truediv acc_sum (float_of_int i_sum) else Fin 1).

Definition seg_mean_iou_np (label_hmask pred_imask : ndarray)
    : result npfloat :=
  py_assert (ndim label_hmask =? 3)%nat ;;
  py_assert (ndim pred_imask =? 2)%nat ;;
  py_assert (shape_eqb (shape pred_imask) (tail (shape label_hmask))) ;;
  let n := shape0 label_hmask in
  let '(i_sum, acc_iou) :=
    fold_left (fun '(i_sum, acc_iou) i =>
      let class_i_pred_mask := np_eq_scalar (data pred_imask) (Z.of_nat i) in
      let class_i_label_mask := np_plane label_hmask i in
      let u_i := np_sum class_i_label_mask in
      let u_ji_sj := np_sum_bool class_i_pred_mask in
      if u_i + u_ji_sj =? 0 then (i_sum, acc_iou)
      else
        let u_ii := np_sum_bool (np_logical_and class_i_pred_mask
                                                (np_truthy class_i_label_mask)) in
        (i_sum + 1,
         fadd acc_iou (np_truediv (float_of_int u_ii)
                                  (float_of_int (u_i + u_ji_sj - u_ii)))))
      (seq 0 n) (0, Fin 0) in
  Ok (if 0 <? i_sum then np_truediv acc_iou (float_of_int i_sum) else Fin 1).

(** Sum and mean of a float array. *)
Definition fsum (l : list npfloat) : npfloat := fold_left fadd l (Fin 0).
Definition fmean (l : list npfloat) : npfloat :=
  np_truediv (fsum l) (float_of_int (Z.of_nat (length l))).

(** ** MXNet arrays

    [segm_mean_iou2] calls [sum] with a list of axes and [asscalar]: its
    arguments are NDArrays of MXNet, as its docstring says, not numpy
    arrays (whose [sum] refuses a list of axes).  They are taken in MXNet's
    default type, [float32]; NDArrays of another type are outside this
    model.  An operation on [float32] values is the IEEE 754 binary32 one:
    24 bits of precision, rounding to nearest, ties to even. *)
Abbreviation float32 := SpecFloat.spec_float (only parsing).









(** [np.histogram(a, bins=bins, range=(lo, hi))] with an integer number of
    bins: the counts only.  Equal-width bins, the last one closed on the
    right; a range with [lo = hi] is widened by one half on each side;
    elements outside the range are dropped. *)
Definition hist_index (first_edge last_edge : Q) (bins : Z) (v : Z) : Z :=
  let i := Qfloor ((inject_Z v - first_edge) * inject_Z bins
                   / (last_edge - first_edge)) in
  if i =? bins then bins - 1 else i.

Definition hist_keep (first_edge last_edge : Q) (v : Z) : bool :=
  match first_edge ?= inject_Z v, inject_Z v ?= last_edge with
  | Gt, _ | _, Gt => false
  | _, _ => true
  end%Q.

Definition np_histogram (a : list Z) (bins : Z) (lo hi : Z) : result (list Z) :=
  if bins <? 1 then Raise ValueError
  else if hi <? lo then Raise ValueError
  else
    let '(first_edge, last_edge) :=
      if lo =? hi then (inject_Z lo - (1 # 2), inject_Z hi + (1 # 2))%Q
      else (inject_Z lo, inject_Z hi) in
    let kept := filter (fun v => hist_keep first_edge last_edge v = true) a in
    let indices := map (hist_index first_edge last_edge bins) kept in
    Ok (map (fun b => Z.of_nat (length (filter (fun i => i = Z.of_nat b) indices)))
            (seq 0 (Z.to_nat bins))).

(** The store of array objects, and the monad of a call that reads and
    updates it and may raise. *)
Abbreviation loc := nat (only parsing).
Abbreviation store := (gmap nat ndarray) (only parsing).

Definition M (A : Type) : Type := store → store * result A.

#[global] Instance M_ret : MRet M := fun A a σ => (σ, Ok a).
#[global] Instance M_bind : MBind M := fun A B k m σ =>
  match m σ with
  | (σ', Ok a) => k a σ'
  | (σ', Raise e) => (σ', Raise e)
  end.

Definition lift {A : Type} (r : result A) : M A := fun σ => (σ, r).

(** Reading the object behind a name; a name that holds no array has no
    [shape] attribute. *)
Definition load (l : loc) : M ndarray := fun σ =>
  match σ !! l with
  | Some a => (σ, Ok a)
  | None => (σ, Raise AttributeError)
  end.

(** [a += k] on an array: the object itself is updated. *)
Definition iadd (l : loc) (k : Z) : M unit := fun σ =>
  match σ !! l with
  | Some a => (<[l := mk_ndarray (shape a) (np_add_scalar (data a) k)]> σ, Ok tt)
  | None => (σ, Raise TypeError)
  end.

Definition seg_mean_iou_imasks_np (label_imask pred_imask : loc)
    (num_classes : Z) (ignore_bg : bool) : M npfloat :=
  L ← load label_imask;
  P ← load pred_imask;
  lift (py_assert (ndim L =? 2)%nat) ;;
  lift (py_assert (ndim P =? 2)%nat) ;;
  lift (py_assert (shape_eqb (shape P) (shape L))) ;;
  let mini := 1 in
  let maxi := num_classes in
  let nbins := num_classes in
  '(maxi, nbins, label_v, pred_v) ←
    (if ignore_bg then
       mret (maxi - 1, nbins - 1, data L,
             np_mul (data P) (np_astype_int (np_gt_scalar (data L) 0)))
     else
       iadd label_imask 1 ;;
       iadd pred_imask 1 ;;
       L' ← load label_imask;
       P' ← load pred_imask;
       mret (maxi, nbins, data L',
             if np_any (np_lt_scalar (data L') 0)
             then np_mul (data P') (np_astype_int (np_ge_scalar (data L') 0))
             else data P'));
  let intersection := np_mul pred_v (np_astype_int (np_eq pred_v label_v)) in
  area_inter ← lift (np_histogram intersection nbins mini maxi);
  area_pred ← lift (np_histogram pred_v nbins mini maxi);
  area_label ← lift (np_histogram label_v nbins mini maxi);
  let area_union :=
    zip_with (fun pl i => fadd (float_of_int (pl - i)) (Fin eps))
             (zip_with Z.add area_pred area_label) area_inter in
  let mean_iou := fmean (zip_with np_truediv (map float_of_int area_inter) area_union) in
  mret mean_iou.

(** ** [utils_tp.py] *)

Definition prepare_tf_context (num_gpus batch_size : Z) : Z :=
  let batch_size := batch_size * Z.max 1 num_gpus in
  batch_size.

(** The calls a function makes to the world outside it, in order.
    [EvBuildGraph] is a call of [ImageNetModel.build_graph], the only place
    where the computational graph is built. *)
Inductive event : Type :=
| EvGetModel (model_name : string) (pretrained : bool) (classes : Z)
| EvIsFile (path : string)
| EvLogInfo (msg : string)
| EvGetModelLoader (path : string)
| EvBuildGraph
| EvDescribeTrainableVars
| EvProfile.

(** The reference that tensorpack's [get_model_loader] builds for a file. *)
Record model_loader : Type := ModelLoader { loader_path : string }.

Section ImageNetModel.
(** A network, as the model registry returns it. *)
Variable network : Type.

(** Attributes set by [ImageNetModel.__init__]. *)
Record ImageNetModel : Type := mk_ImageNetModel {
  model_lambda : network;
  image_shape : Z;
  image_dtype : string;
  data_format : string;
  image_bgr : bool;
  weight_decay : Q;
  weight_decay_pattern : string;
  loss_scale : Q;
  label_smoothing : Q
}.

Definition ImageNetModel_init (model_lambda : network) : ImageNetModel :=
  {| model_lambda := model_lambda;
     image_shape := 224;
     image_dtype := "uint8";
     data_format := "NCHW";
     image_bgr := true;
     weight_decay := 1 # 10000;
     weight_decay_pattern := ".*/W";
     loss_scale := 1;
     label_smoothing := 0 |}.

(** [calc_flops]: the graph is built by hand, then described and profiled. *)
Definition calc_flops (model : ImageNetModel) : list event :=
  [ EvBuildGraph;
    EvDescribeTrainableVars;
    EvProfile;
    EvLogInfo "Note that TensorFlow counts flops in a different way from the paper.";
    EvLogInfo ("TensorFlow counts multiply+add as two flops, however the paper counts them "
               +:+ "as 1 flop because it can be executed in one instruction.") ].

(** The model registry ([model_provider.get_model]) and the file system
    ([os.path.isfile]) are outside this file. *)
Variable get_model : string → bool → Z → result network.
Variable isfile : string → bool.

(** Truth value of the path argument: [None] and the empty string are false. *)
Definition path_truthy (p : option string) : option string :=
  match p with
  | Some s => if bool_decide (s = "") then None else Some s
  | None => None
  end.

Definition prepare_model (model_name : string) (classes : Z)
    (use_pretrained : bool) (pretrained_model_file_path : option string)
    : list event * result (ImageNetModel * option model_loader) :=
  let tr := [EvGetModel model_name use_pretrained classes] in
  match get_model model_name use_pretrained classes with
  | Raise e => (tr, Raise e)
  | Ok net =>
      let net := ImageNetModel_init net in
      let inputs_desc := None in
      match path_truthy pretrained_model_file_path with
      | Some path =>
          let tr := tr ++ [EvIsFile path] in
          if isfile path then
            let tr := tr ++ [EvLogInfo ("Loading model: " +:+ path)] in
            let inputs_desc := Some (ModelLoader path) in
            (tr ++ [EvGetModelLoader path], Ok (net, inputs_desc))
          else (tr, Raise AssertionError)
      | None => (tr, Ok (net, inputs_desc))
      end
  end.
End ImageNetModel.

Arguments mk_ImageNetModel {network}.
Arguments ImageNetModel_init {network}.
Arguments calc_flops {network}.
Arguments prepare_model {network}.

(** *** [GoogleNetResize] *)

(** An image is its height and width ([img.shape[:2]]); the pixels play no
    part in the sizes computed here. *)
Record image : Type := mk_image { img_h : Z; img_w : Z }.

Record GoogleNetResize : Type := mk_GoogleNetResize {
  crop_area_fraction : Q;
  aspect_ratio_low : Q;
  aspect_ratio_high : Q;
  target_shape : Z
}.

(** The defaults of [GoogleNetResize.__init__]. *)
Definition GoogleNetResize_default : GoogleNetResize :=
  {| crop_area_fraction := 8 # 100;
     aspect_ratio_low := 75 # 100;
     aspect_ratio_high := 1333 # 1000;
     target_shape := 224 |}.

(** The generator [self.rng] is the stream of its unit draws in [0, 1); the
    [pos]-th draw serves the [pos]-th request. *)
Definition rng_uniform (u low high : Q) : Q := (low + (high - low) * u)%Q.
Definition rng_randint (u : Q) (low high : Z) : result Z :=
  if high <=? low then Raise ValueError
  else Ok (low + Qfloor (u * inject_Z (high - low))).

Definition Qlt_bool (a b : Q) : bool := negb (Qle_bool b a).

(** [int(np.sqrt(x) + 0.5)]: the integer nearest to the square root.  The
    square root of a negative number is NaN, which [int] refuses. *)
Definition int_sqrt_half (x : Q) : result Z :=
  if Qlt_bool x 0 then Raise ValueError
  else Ok ((Z.sqrt (Qfloor (4 * x)) + 1) / 2).

(** Length of the slice [a:b] of an axis of length [len], for [0 <= a]. *)
Definition slice_len (len a b : Z) : Z :=
  Z.max 0 (Z.min len b - Z.min len a).

(** [cv2.resize(src, (w, h))]: refuses an empty source and an empty size. *)
Definition cv2_resize (src : image) (dw dh : Z) : result image :=
  if (img_h src <=? 0) || (img_w src <=? 0) || (dw <=? 0) || (dh <=? 0)
  then Raise CvError
  else Ok (mk_image dh dw).

(** tensorpack's [imgaug.ResizeShortestEdge(size).augment]. *)
Definition ResizeShortestEdge (size : Z) (img : image) : result image :=
  let h := img_h img in
  let w := img_w img in
  if Z.min h w =? 0 then Raise ZeroDivisionError
  else
    let scale := (inject_Z size / inject_Z (Z.min h w))%Q in
    let '(newh, neww) :=
      if h <? w then (size, Qfloor (scale * inject_Z w + (1 # 2)))
      else (Qfloor (scale * inject_Z h + (1 # 2)), size) in
    cv2_resize img neww newh.

(** tensorpack's [imgaug.CenterCrop(size).augment]. *)
Definition CenterCrop (size : Z) (img : image) : result image :=
  py_assert ((size <=? img_h img) && (size <=? img_w img)) ;;
  let h0 := (img_h img - size) / 2 in
  let w0 := (img_w img - size) / 2 in
  Ok (mk_image (slice_len (img_h img) h0 (h0 + size))
               (slice_len (img_w img) w0 (w0 + size))).

(** The body of the loop of [_augment], [k] attempts left, the next draw
    being the [pos]-th; then the fallback. *)
Fixpoint augment_loop (self : GoogleNetResize) (rng : nat → Q) (img : image)
    (k pos : nat) : result image :=
  let h := img_h img in
  let w := img_w img in
  let area := h * w in
  match k with
  | O =>
      out ← ResizeShortestEdge (target_shape self) img;
      CenterCrop (target_shape self) out
  | S k' =>
      let targetArea :=
        (rng_uniform (rng pos) (crop_area_fraction self) 1 * inject_Z area)%Q in
      let aspectR :=
        rng_uniform (rng (pos + 1)%nat) (aspect_ratio_low self) (aspect_ratio_high self) in
      ww ← int_sqrt_half (targetArea * aspectR);
      (if Qeq_bool aspectR 0 then Raise ZeroDivisionError else Ok tt) ;;
      hh ← int_sqrt_half (targetArea / aspectR);
      let '(ww, hh) := if Qlt_bool (rng (pos + 2)%nat) (1 # 2) then (hh, ww) else (ww, hh) in
      if (hh <=? h) && (ww <=? w) then
        let pos := (pos + 3)%nat in
        '(x1, pos) ← (if w =? ww then Ok (0, pos)
                      else x ← rng_randint (rng pos) 0 (w - ww); Ok (x, S pos));
        '(y1, pos) ← (if h =? hh then Ok (0, pos)
                      else y ← rng_randint (rng pos) 0 (h - hh); Ok (y, S pos));
        let out := mk_image (slice_len h y1 (y1 + hh)) (slice_len w x1 (x1 + ww)) in
        cv2_resize out (target_shape self) (target_shape self)
      else augment_loop self rng img k' (pos + 3)%nat
  end.

Definition GoogleNetResize_augment (self : GoogleNetResize) (rng : nat → Q)
    (img : image) : result image :=
  augment_loop self rng img 10 0.

(** ** Counts, in the words of the specification *)

(** Number of elements of [l] on which [f] holds. *)
Definition count_where {A : Type} (f : A → bool) (l : list A) : Z :=
  Z.of_nat (length (List.filter f l)).

(** Pairs (label, prediction) of the pixels of two masks. *)
Definition pixels (label pred : ndarray) : list (Z * Z) :=
  zip (data label) (data pred).

(** A one-hot mask holds zeros and ones only. *)
Definition is_01 (l : list Z) : Prop := Forall (fun v => v = 0 ∨ v = 1) l.

(** Number of pixels of a class plane that are set. *)
Definition count_set (plane : list Z) : Z :=
  count_where (fun v => negb (v =? 0)) plane.

(** Sum of a list of rationals. *)
Definition Qsum (l : list Q) : Q := foldr Qplus 0%Q l.

(** The mean, over the classes [i < n] that are counted, of
    [num i / den i]; [1.0] when no class is counted. *)
Definition spec_class_mean (n : nat) (counted : nat → bool) (num den : nat → Z)
    : npfloat :=
  let classes := List.filter counted (seq 0 n) in
  match classes with
  | [] => Fin 1
  | _ :: _ =>
      Fin (Qred (Qsum (map (fun i => inject_Z (num i) / inject_Z (den i))%Q classes)
                 / inject_Z (Z.of_nat (length classes))))
  end.

(** The loop shared by the per-class metrics: a class is skipped or adds
    [num i / den i] to the accumulator and one to the counter. *)
Definition class_loop (skip : nat → bool) (num den : nat → Z)
    (l : list nat) (st : Z * npfloat) : Z * npfloat :=
  fold_left (fun '(i_sum, acc) i =>
      if skip i then (i_sum, acc)
      else (i_sum + 1,
            fadd acc (np_truediv (float_of_int (num i)) (float_of_int (den i)))))
    l st.

(** [hmask] is the one-hot encoding of the index mask [imask]. *)
Definition one_hot_of (hmask imask : ndarray) : Prop :=
  ndim hmask = 3%nat ∧ ndim imask = 2%nat ∧ shape imask = tail (shape hmask)
  ∧ ∀ i, (i < shape0 hmask)%nat →
      np_plane hmask i = map (fun v => if v =? Z.of_nat i then 1 else 0) (data imask).

(** Intersection over union of one class from its three pixel counts, with
    the epsilon added to the union. *)
Definition smoothed_iou (inter pred label : Z) : Q :=
  (inject_Z inter / (inject_Z (pred + label - inter) + eps))%Q.

(** [a += 1] seen on the array value. *)
Definition shifted (a : ndarray) : ndarray :=
  mk_ndarray (shape a) (np_add_scalar (data a) 1).



(** A configuration none of whose candidate crops is empty on an image of
    at least the target size: the smallest candidate, of area
    [crop_area_fraction * target^2], has at least half a pixel per side
    before rounding, whatever the aspect ratio drawn. *)
Definition nonempty_crops (self : GoogleNetResize) : Prop :=
  let t2 := inject_Z (target_shape self * target_shape self) in
  (0 < crop_area_fraction self)%Q ∧ (crop_area_fraction self <= 1)%Q
  ∧ (0 < aspect_ratio_low self)%Q
  ∧ (aspect_ratio_low self <= aspect_ratio_high self)%Q
  ∧ (1 <= 4 * crop_area_fraction self * aspect_ratio_low self * t2)%Q
  ∧ (aspect_ratio_high self <= 4 * crop_area_fraction self * t2)%Q.

(** Every draw of the generator lies in [0, 1). *)
Definition unit_draws (rng : nat → Q) : Prop :=
  ∀ i, (0 <= rng i)%Q ∧ (rng i < 1)%Q.

(** ** Proof support *)

(** The float operations are folded and unfolded by name only. *)
#[global] Arguments np_truediv : simpl never.
#[global] Arguments py_truediv : simpl never.
#[global] Arguments fadd : simpl never.
#[global] Arguments float_of_int : simpl never.
#[global] Arguments np_sum_bool : simpl never.

(** Case analysis on every integer comparison of the goal. *)
Ltac bool_cases :=
  repeat match goal with
  | |- context [(?a =? ?b)%Z] => destruct (Z.eqb_spec a b)
  | |- context [(?a <? ?b)%Z] => destruct (Z.ltb_spec a b)
  | |- context [(?a <=? ?b)%Z] => destruct (Z.leb_spec a b)
  | H : context [(?a =? ?b)%Z] |- _ => destruct (Z.eqb_spec a b)
  | H : context [(?a <? ?b)%Z] |- _ => destruct (Z.ltb_spec a b)
  | H : context [(?a <=? ?b)%Z] |- _ => destruct (Z.leb_spec a b)
  end; simpl; try reflexivity; try lia; try (exfalso; lia).

(** ** Further definitions *)

(** The two masks without the pixels whose label is the vague index, as
    one-dimensional arrays. *)
Definition drop_vague (label pred : ndarray) (vague_idx : Z) : ndarray * ndarray :=
  let kept := List.filter (fun lp : Z * Z => negb (lp.1 =? vague_idx))
                          (pixels label pred) in
  (mk_ndarray [length kept] (map fst kept), mk_ndarray [length kept] (map snd kept)).

(** ** [seg_metrics_np.py]: frequency weighted IoU *)

(** The accumulator of the two frequency weighted loops starts as the
    Python float [0.0] and becomes a numpy float at its first [+=]
    ([touched]).  The closing [acc_iou / fw_factor] divides by a Python
    integer: a zero divisor raises while the accumulator is still a Python
    float, and gives an infinity or a NaN once it is a numpy float. *)
Definition fw_div (touched : bool) (acc_iou : npfloat) (fw_factor : Z)
    : result npfloat :=
  if touched then Ok (np_truediv acc_iou (float_of_int fw_factor))
  else py_truediv acc_iou fw_factor.

(** A call of [segm_fw_iou_hmasks] ends like any other call, or with the
    [IndexError] of [pred_hmask[0]] on an array without planes. *)
Inductive outcome (A : Type) : Type :=
| Done (r : result A)
| RaiseIndexError.

Arguments Done {A} r.
Arguments RaiseIndexError {A}.

Definition segm_fw_iou_hmasks (label_hmask pred_hmask : ndarray)
    : outcome npfloat :=
  match
    py_assert (shape_eqb (shape pred_hmask) (shape label_hmask)) ;;
    py_assert (ndim pred_hmask =? 3)%nat
  with
  | Raise e => Done (Raise e)
  | Ok _ =>
      let n := shape0 label_hmask in
      let '(touched, acc_iou) :=
        fold_left (fun '(touched, acc_iou) i =>
          let class_i_pred_mask := np_plane pred_hmask i in
          let class_i_label_mask := np_plane label_hmask i in
          let u_i := np_sum class_i_label_mask in
          let u_ji_sj := np_sum class_i_pred_mask in
          if u_i + u_ji_sj =? 0 then (touched, acc_iou)
          else
            let u_ii := np_sum_bool (np_logical_and (np_truthy class_i_pred_mask)
                                                    (np_truthy class_i_label_mask)) in
            (true,
             fadd acc_iou (np_truediv (float_of_int (u_i * u_ii))
                                      (float_of_int (u_i + u_ji_sj - u_ii)))))
          (seq 0 n) (false, Fin 0) in
      if (shape0 pred_hmask =? 0)%nat then RaiseIndexError
      else
        let fw_factor := Z.of_nat (plane_size pred_hmask) in
        Done (fw_div touched acc_iou fw_factor)
  end.

Definition segm_fw_iou (label_hmask pred_imask : ndarray) : result npfloat :=
  py_assert (ndim label_hmask =? 3)%nat ;;
  py_assert (ndim pred_imask =? 2)%nat ;;
  py_assert (shape_eqb (shape pred_imask) (tail (shape label_hmask))) ;;
  let n := shape0 label_hmask in
  let '(touched, acc_iou) :=
    fold_left (fun '(touched, acc_iou) i =>
      let class_i_pred_mask := np_eq_scalar (data pred_imask) (Z.of_nat i) in
      let class_i_label_mask := np_plane label_hmask i in
      let u_i := np_sum class_i_label_mask in
      let u_ji_sj := np_sum_bool class_i_pred_mask in
      if u_i + u_ji_sj =? 0 then (touched, acc_iou)
      else
        let u_ii := np_sum_bool (np_logical_and class_i_pred_mask
                                                (np_truthy class_i_label_mask)) in
        (true,
         fadd acc_iou (np_truediv (float_of_int (u_i * u_ii))
                                  (float_of_int (u_i + u_ji_sj - u_ii)))))
      (seq 0 n) (false, Fin 0) in
  let fw_factor := np_size pred_imask in
  fw_div touched acc_iou fw_factor.

(** The loop of the two functions: a class is skipped or adds
    [num i / den i] to the accumulator, which is then a numpy float. *)
Definition fw_loop (skip : nat → bool) (num den : nat → Z)
    (l : list nat) (st : bool * npfloat) : bool * npfloat :=
  fold_left (fun '(touched, acc) i =>
      if skip i then (touched, acc)
      else (true,
            fadd acc (np_truediv (float_of_int (num i)) (float_of_int (den i)))))
    l st.

(** The sum, over the classes [i < n] that are counted, of [num i / den i],
    divided by [size]. *)
Definition spec_class_sum (n : nat) (counted : nat → bool) (num den : nat → Z)
    (size : Z) : npfloat :=
  Fin (Qred (Qsum (map (fun i => inject_Z (num i) / inject_Z (den i))%Q
                       (List.filter counted (seq 0 n)))
             / inject_Z size)).

#[global] Arguments fw_div : simpl never.

(** ** [utils_tp.py]: the augmentors of [get_data] *)

(** tensorpack's [imgaug.AugmentorList(augmentors).augment]: the augmentors
    one after the other. *)
Definition AugmentorList_augment (augmentors : list (image → result image))
    (img : image) : result image :=
  fold_left (fun r aug => im ← r; aug im) augmentors (Ok img).

(** The augmentors that [get_data] builds when [is_train] is false. *)
Definition get_data_val_augmentors : list (image → result image) :=
  [ResizeShortestEdge 256; CenterCrop 224].

(** A configuration none of whose candidate crops is empty on the image
    [img]: the smallest candidate, of area [crop_area_fraction] times the
    area of the image, has at least half a pixel per side before rounding. *)
Definition nonempty_crops_on (self : GoogleNetResize) (img : image) : Prop :=
  let area := inject_Z (img_h img * img_w img) in
  (0 < crop_area_fraction self)%Q ∧ (crop_area_fraction self <= 1)%Q
  ∧ (0 < aspect_ratio_low self)%Q
  ∧ (aspect_ratio_low self <= aspect_ratio_high self)%Q
  ∧ (1 <= 4 * crop_area_fraction self * aspect_ratio_low self * area)%Q
  ∧ (aspect_ratio_high self <= 4 * crop_area_fraction self * area)%Q.

(** ** [ImageNetModel.image_preprocess] *)

(** An image tensor of shape (N, H, W, C): the number [C] of its channels
    and its pixels, each the list of its [C] channel values.  The values
    are exact, as everywhere, so the cast to [float32] changes nothing. *)
Record tensor : Type := mk_tensor {
  channels : nat;
  pixel_values : list (list Q)
}.

Definition wf_tensor (t : tensor) : Prop :=
  Forall (fun px => length px = channels t) (pixel_values t).

(** [t op c] for a constant [c] of shape (k,): the constant is applied along
    the channel axis; a tensor with one channel is stretched to [k]
    channels, and any other channel count is a shape error. *)
Definition tf_broadcast (op : Q → Q → Q) (t : tensor) (c : list Q) : result tensor :=
  if (channels t =? length c)%nat then
    Ok (mk_tensor (channels t) (map (fun px => zip_with op px c) (pixel_values t)))
  else if (channels t =? 1)%nat then
    Ok (mk_tensor (length c)
          (map (fun px => map (op (hd 0%Q px)) c) (pixel_values t)))
  else Raise ValueError.

Definition image_preprocess {network : Type} (self : ImageNetModel network)
    (image : tensor) : result tensor :=
  let mean := [485 # 1000; 456 # 1000; 406 # 1000]%Q in
  let std := [229 # 1000; 224 # 1000; 225 # 1000]%Q in
  let '(mean, std) := if image_bgr _ self then (rev mean, rev std) else (mean, std) in
  let image_mean := map (fun m => Qred (m * 255)) mean in
  let image_std := map (fun s => Qred (s * 255)) std in
  image ← tf_broadcast (fun x m => Qred (x - m)) image image_mean;
  tf_broadcast (fun x s => Qred (x / s)) image image_std.

(** The same model reading RGB images ([self.image_bgr = False]). *)
Definition with_rgb {network : Type} (self : ImageNetModel network)
    : ImageNetModel network :=
  mk_ImageNetModel (model_lambda _ self) (image_shape _ self) (image_dtype _ self)
    (data_format _ self) false (weight_decay _ self) (weight_decay_pattern _ self)
    (loss_scale _ self) (label_smoothing _ self).

(** Reversal of the channel axis: BGR to RGB and back. *)
Definition reverse_channels (t : tensor) : tensor :=
  mk_tensor (channels t) (map (@rev Q) (pixel_values t)).

(** ** [get_imagenet_dataflow] and [get_data] *)

(** The augmentors of tensorpack that [get_data] names, with the arguments
    it gives them. *)
#[warnings="-register-all"]
Inductive augmentor : Type :=
| AugGoogleNetResize (self : GoogleNetResize)
| AugRandomOrderAug (augmentors : list augmentor)
| AugBrightnessScale (range : Q * Q) (clip : bool)
| AugContrast (range : Q * Q) (clip : bool)
| AugSaturation (alpha : Q) (rgb : bool)
| AugLighting (std : Q) (eigval : list Q) (eigvec : list (list Q))
| AugFlip (horiz : bool)
| AugResizeShortestEdge (size : Z)
| AugCenterCrop (size : Z * Z).

(** The dataflow built, as the expression of tensorpack constructors. *)
Inductive dataflow : Type :=
| ILSVRC12 (dir name : string) (shuffle : bool)
| ILSVRC12Files (dir name : string) (shuffle : bool)
| AugmentImageComponent (ds : dataflow) (augmentors : list augmentor) (copy : bool)
| PrefetchDataZMQ (ds : dataflow) (nr_proc : Z)
| BatchData (ds : dataflow) (batch_size : Z) (remainder : bool)
| MultiThreadMapData (ds : dataflow) (nr_thread : Z) (augmentors : list augmentor)
    (buffer_size : Z) (strict : bool).

Definition dataflow_warning : string :=
  "DataFlow may become the bottleneck when too few processes are used.".

(** [get_imagenet_dataflow]: the warnings logged and the dataflow returned.
    [cpu_count] is what [multiprocessing.cpu_count()] answers.  The map
    function of the validation branch is given by the augmentors it
    applies. *)
Definition get_imagenet_dataflow (cpu_count : Z) (datadir : option string)
    (is_train : bool) (batch_size : Z) (augmentors : list augmentor)
    (parallel : option Z) : list string * result dataflow :=
  match datadir with
  | None => ([], Raise AssertionError)
  | Some datadir =>
      let parallel :=
        match parallel with
        | None => Z.min 40 (cpu_count / 2)
        | Some p => p
        end in
      if is_train then
        let ds := ILSVRC12 datadir "train" true in
        let ds := AugmentImageComponent ds augmentors false in
        let log := if parallel <? 16 then [dataflow_warning] else [] in
        let ds := PrefetchDataZMQ ds parallel in
        let ds := BatchData ds batch_size false in
        (log, Ok ds)
      else
        let ds := ILSVRC12Files datadir "val" false in
        let ds := MultiThreadMapData ds parallel augmentors 2000 true in
        let ds := BatchData ds batch_size true in
        let ds := PrefetchDataZMQ ds 1 in
        ([], Ok ds)
  end.

Definition get_data (cpu_count : Z) (is_train : bool) (batch_size : Z)
    (data_dir_path : option string) : list string * result dataflow :=
  let augmentors :=
    if is_train then
      [ AugGoogleNetResize
          (mk_GoogleNetResize (8 # 100)
             (aspect_ratio_low GoogleNetResize_default)
             (aspect_ratio_high GoogleNetResize_default)
             (target_shape GoogleNetResize_default));
        AugRandomOrderAug
          [ AugBrightnessScale (6 # 10, 14 # 10)%Q false;
            AugContrast (6 # 10, 14 # 10)%Q false;
            AugSaturation (4 # 10) false;
            AugLighting (1 # 10)
              (map (fun v => Qred (v * 255))
                   (rev [2175 # 10000; 188 # 10000; 45 # 10000]))%Q
              (rev (map (@rev Q)
                 [ [-(5675 # 10000); 7192 # 10000; 4009 # 10000];
                   [-(5808 # 10000); -(45 # 10000); -(8140 # 10000)];
                   [-(5836 # 10000); -(6948 # 10000); 4203 # 10000] ]))%Q ];
        AugFlip true ]
    else
      [ AugResizeShortestEdge 256;
        AugCenterCrop (224, 224) ] in
  get_imagenet_dataflow cpu_count data_dir_path is_train batch_size augmentors None.

(* ================================================================== *)
(** * Part II: properties                                              *)
(* ================================================================== *)


(** ** Arithmetic of the float model *)

Lemma Qeq_bool_inject_Z_0 (k : Z) : Qeq_bool (inject_Z k) 0 = (k =? 0).
Proof. unfold Qeq_bool, inject_Z; simpl. now rewrite Z.mul_1_r. Qed.

Lemma np_truediv_int (a b : Z) :
  b ≠ 0 →
  np_truediv (float_of_int a) (float_of_int b) = Fin (Qred (inject_Z a / inject_Z b)).
Proof.
  intros Hb. unfold np_truediv, float_of_int.
  rewrite Qeq_bool_inject_Z_0. now apply Z.eqb_neq in Hb as ->.
Qed.

Lemma np_truediv_fin_int (q : Q) (b : Z) :
  b ≠ 0 →
  np_truediv (Fin q) (float_of_int b) = Fin (Qred (q / inject_Z b)).
Proof.
  intros Hb. unfold np_truediv, float_of_int.
  rewrite Qeq_bool_inject_Z_0. now apply Z.eqb_neq in Hb as ->.
Qed.

Lemma Qred_div_same (k : Z) : k ≠ 0 → Qred (inject_Z k / inject_Z k) = 1%Q.
Proof.
  intros Hk. change 1%Q with (Qred 1). apply Qred_complete.
  apply Qmult_inv_r. intros H. apply Hk.
  now apply (inject_Z_injective k 0).
Qed.

(** ** Boolean arrays and counts *)

Lemma np_sum_bool_cons (b : bool) (l : list bool) :
  np_sum_bool (b :: l) = (if b then 1 else 0) + np_sum_bool l.
Proof. reflexivity. Qed.

Lemma np_sum_bool_nonneg (l : list bool) : 0 ≤ np_sum_bool l.
Proof.
  induction l as [|b l IH]; [done|].
  rewrite np_sum_bool_cons. destruct b; lia.
Qed.

Lemma np_sum_bool_map {A : Type} (f : A → bool) (l : list A) :
  np_sum_bool (map f l) = count_where f l.
Proof.
  unfold count_where. induction l as [|x l IH]; [done|].
  change (map f (x :: l)) with (f x :: map f l).
  rewrite np_sum_bool_cons, IH. simpl. destruct (f x); simpl; lia.
Qed.

Lemma zip_with_as_map {A B C : Type} (f : A → B → C) (l : list A) (k : list B) :
  zip_with f l k = map (fun p => f p.1 p.2) (zip l k).
Proof.
  revert k. induction l as [|x l IH]; intros [|y k]; simpl; try done.
  now rewrite IH.
Qed.

Lemma zip_with_as_map_flip {A B C : Type} (f : A → B → C) (l : list A) (k : list B) :
  zip_with f l k = map (fun p => f p.2 p.1) (zip k l).
Proof.
  revert k. induction l as [|x l IH]; intros [|y k]; simpl; try done.
  now rewrite IH.
Qed.

Lemma map_as_zip_l {A B C : Type} (f : A → C) (l : list A) (k : list B) :
  length l = length k →
  map f l = map (fun p => f p.1) (zip l k).
Proof.
  revert k. induction l as [|x l IH]; intros [|y k] Hlen; simpl in *; try done.
  f_equal. apply IH. lia.
Qed.

Lemma logical_and_eq_map (g : Z → bool) (l p : list Z) :
  np_logical_and (np_eq p l) (map g l)
  = map (fun lp => (lp.2 =? lp.1) && g lp.1) (zip l p).
Proof.
  unfold np_logical_and, np_eq.
  revert p. induction l as [|x l IH]; intros [|y p]; simpl; try done.
  now rewrite IH.
Qed.

Lemma filter_none {A : Type} (f : A → bool) (l : list A) :
  (∀ x, List.In x l → f x = false) → List.filter f l = [].
Proof.
  induction l as [|x l IH]; intros H; [done|]. simpl.
  rewrite (H x) by now left. apply IH. intros y Hy. apply H. now right.
Qed.

Lemma count_where_le_length {A : Type} (f : A → bool) (l : list A) :
  0 ≤ count_where f l ≤ Z.of_nat (length l).
Proof.
  unfold count_where. pose proof (List.filter_length_le f l). lia.
Qed.

Lemma count_where_ext {A : Type} (f g : A → bool) (l : list A) :
  (∀ x, x ∈ l → f x = g x) → count_where f l = count_where g l.
Proof.
  intros H. unfold count_where. do 2 f_equal.
  induction l as [|x l IH]; [done|]. simpl.
  rewrite (H x) by left. rewrite IH; [done|].
  intros y Hy. apply H. now right.
Qed.

Lemma wf_same_length (a b : ndarray) :
  wf_ndarray a → wf_ndarray b → shape a = shape b →
  length (data a) = length (data b).
Proof. unfold wf_ndarray. intros -> -> ->. done. Qed.

(** ** Pixel accuracy *)

Lemma seg_pixel_accuracy_np_counts (label pred : ndarray) (vague_idx : Z) :
  wf_ndarray label → wf_ndarray pred → shape label = shape pred →
  seg_pixel_accuracy_np label pred vague_idx false =
    (if Z.of_nat (length (data pred)) =? 0 then Raise ZeroDivisionError
     else Ok (Fin (Qred (inject_Z (count_where (fun lp => lp.2 =? lp.1) (pixels label pred))
                         / inject_Z (Z.of_nat (length (data pred)))))))
  ∧ seg_pixel_accuracy_np label pred vague_idx true =
    (if count_where (fun lp => negb (lp.1 =? vague_idx)) (pixels label pred) =? 0
     then Ok (Fin 0)
     else Ok (Fin (Qred (inject_Z (count_where
                                     (fun lp => (lp.2 =? lp.1) && negb (lp.1 =? vague_idx))
                                     (pixels label pred))
                         / inject_Z (count_where (fun lp => negb (lp.1 =? vague_idx))
                                                 (pixels label pred)))))).
Proof.
  intros Hl Hp Hsh.
  set (total := Z.of_nat (length (data pred))).
  set (agree := count_where (fun lp => lp.2 =? lp.1) (pixels label pred)).
  set (valid := count_where (fun lp => negb (lp.1 =? vague_idx)) (pixels label pred)).
  set (valid_agree :=
    count_where (fun lp => (lp.2 =? lp.1) && negb (lp.1 =? vague_idx))
                (pixels label pred)).
  pose proof (wf_same_length _ _ Hl Hp Hsh) as Hlen.
  assert (Hne : np_sum_bool (np_ne_scalar (data label) vague_idx) = valid).
  { unfold np_ne_scalar, valid, pixels.
    rewrite (map_as_zip_l _ _ (data pred)) by done.
    apply np_sum_bool_map. }
  unfold seg_pixel_accuracy_np, shape_eqb.
  rewrite bool_decide_eq_true_2 by done. simpl. split.
  - unfold py_truediv, np_size.
    replace (Z.of_nat (size_of (shape pred))) with total
      by (unfold total; now rewrite Hp).
    destruct (total =? 0) eqn:Ht; [done|].
    apply Z.eqb_neq in Ht. rewrite np_truediv_int by done.
    do 4 f_equal. unfold np_eq, agree, pixels.
    now rewrite zip_with_as_map_flip, np_sum_bool_map.
  - rewrite Hne. destruct (valid =? 0) eqn:Hv; [done|].
    apply Z.eqb_neq in Hv. rewrite np_truediv_int by done.
    do 4 f_equal. unfold np_ne_scalar, valid_agree, pixels.
    now rewrite logical_and_eq_map, np_sum_bool_map.
Qed.
(** C3. With [use_vague=False] the pixel accuracy is the number of pixels
    where the prediction equals the label, divided by the number of pixels
    (the division raising on an empty mask); with [use_vague=True] it is the
    number of pixels that agree and whose label is not the vague index,
    divided by the number of pixels whose label is not the vague index, and
    [0.0] when no pixel has such a label. *)
Theorem seg_pixel_accuracy_np_spec (label pred : ndarray) (vague_idx : Z) :
  wf_ndarray label → wf_ndarray pred → shape label = shape pred →
  let total := Z.of_nat (length (data pred)) in
  let agree := count_where (fun lp => lp.2 =? lp.1) (pixels label pred) in
  let valid := count_where (fun lp => negb (lp.1 =? vague_idx)) (pixels label pred) in
  let valid_agree :=
    count_where (fun lp => (lp.2 =? lp.1) && negb (lp.1 =? vague_idx))
                (pixels label pred) in
  seg_pixel_accuracy_np label pred vague_idx false =
    (if total =? 0 then Raise ZeroDivisionError
     else Ok (Fin (Qred (inject_Z agree / inject_Z total))))
  ∧ seg_pixel_accuracy_np label pred vague_idx true =
    (if valid =? 0 then Ok (Fin 0)
     else Ok (Fin (Qred (inject_Z valid_agree / inject_Z valid)))).
Proof.
  intros Hl Hp Hsh. exact (seg_pixel_accuracy_np_counts label pred vague_idx Hl Hp Hsh).
Qed.

(** C10. On empty masks of equal shape the unmasked pixel accuracy divides
    by a pixel count of zero and raises, while the masked one returns [0.0]:
    only the [use_vague=True] path guards its denominator. *)
Theorem seg_pixel_accuracy_np_empty (label pred : ndarray) (vague_idx : Z) :
  wf_ndarray label → wf_ndarray pred → shape label = shape pred →
  np_size label = 0 →
  seg_pixel_accuracy_np label pred vague_idx false = Raise ZeroDivisionError
  ∧ seg_pixel_accuracy_np label pred vague_idx true = Ok (Fin 0).
Proof.
  intros Hl Hp Hsh Hsz.
  assert (Hd : data label = []).
  { apply length_zero_iff_nil. unfold np_size in Hsz. rewrite Hl. lia. }
  unfold seg_pixel_accuracy_np, shape_eqb.
  rewrite bool_decide_eq_true_2 by done. simpl. split.
  - unfold py_truediv, np_size in *. rewrite <- Hsh, Hsz. done.
  - now rewrite Hd.
Qed.

Lemma seg_pixel_accuracy_np_empty_witness :
  seg_pixel_accuracy_np (mk_ndarray [0; 3]%nat []) (mk_ndarray [0; 3]%nat []) (-1) false
    = Raise ZeroDivisionError
  ∧ seg_pixel_accuracy_np (mk_ndarray [0; 3]%nat []) (mk_ndarray [0; 3]%nat []) (-1) true
    = Ok (Fin 0).
Proof.
  apply (seg_pixel_accuracy_np_empty (mk_ndarray [0; 3]%nat []) (mk_ndarray [0; 3]%nat []) (-1));
    reflexivity.
Defined.

Lemma seg_pixel_accuracy_np_spec_witness :
  let label := mk_ndarray [2; 2]%nat [0; 1; 1; -1] in
  let pred := mk_ndarray [2; 2]%nat [0; 1; 0; 1] in
  seg_pixel_accuracy_np label pred (-1) false = Ok (Fin (1 # 2))
  ∧ seg_pixel_accuracy_np label pred (-1) true = Ok (Fin (2 # 3)).
Proof.
  exact (seg_pixel_accuracy_np_spec (mk_ndarray [2; 2]%nat [0; 1; 1; -1])
           (mk_ndarray [2; 2]%nat [0; 1; 0; 1]) (-1) eq_refl eq_refl eq_refl).
Defined.

(** ** The class loops *)

Lemma class_loop_spec (skip : nat → bool) (num den : nat → Z) (l : list nat) :
  (∀ i, i ∈ l → skip i = false → den i ≠ 0) →
  ∀ (k : Z) (q : Q),
  ∃ q', class_loop skip num den l (k, Fin q)
        = (k + count_where (fun i => negb (skip i)) l, Fin q')
      ∧ (q' == q + Qsum (map (fun i => inject_Z (num i) / inject_Z (den i))
                             (List.filter (fun i => negb (skip i)) l)))%Q.
Proof.
  unfold class_loop, count_where.
  induction l as [|i l IH]; intros Hden k q; simpl.
  - exists q. split; [f_equal; lia | ring].
  - destruct (skip i) eqn:Hs; simpl.
    + apply IH. intros j Hj. apply Hden. now right.
    + rewrite np_truediv_int by (apply Hden; [left | done]).
      unfold fadd at 2.
      destruct (IH (fun j Hj => Hden j (list_elem_of_further _ _ _ Hj)) (k + 1)
                  (Qred (q + Qred (inject_Z (num i) / inject_Z (den i)))))
        as (q' & -> & Hq').
      exists q'. split; [f_equal; lia|].
      rewrite Hq', !Qred_correct. ring.
Qed.


Lemma class_loop_mean (skip : nat → bool) (num den : nat → Z) (n : nat) :
  (∀ i, (i < n)%nat → skip i = false → den i ≠ 0) →
  (let '(i_sum, acc) := class_loop skip num den (seq 0 n) (0, Fin 0) in
   if 0 <? i_sum then np_truediv acc (float_of_int i_sum) else Fin 1)
  = spec_class_mean n (fun i => negb (skip i)) num den.
Proof.
  intros Hden.
  destruct (class_loop_spec skip num den (seq 0 n)) with (k := 0) (q := 0%Q)
    as (q' & -> & Hq').
  { intros i Hi. apply Hden. apply elem_of_seq in Hi. lia. }
  unfold spec_class_mean, count_where.
  destruct (List.filter (fun i => negb (skip i)) (seq 0 n)) as [|c cs] eqn:Hf.
  - reflexivity.
  - set (len := Z.of_nat (length (c :: cs))).
    assert (Hlen : 0 < len) by (unfold len; simpl length; lia).
    rewrite Z.add_0_l. apply Z.ltb_lt in Hlen as Hlt. rewrite Hlt.
    rewrite np_truediv_fin_int by lia.
    f_equal. apply Qred_complete. rewrite Hq'. now rewrite Qplus_0_l.
Qed.


(** ** One-hot planes *)

Lemma np_sum_is_01 (l : list Z) : is_01 l → np_sum l = count_set l.
Proof.
  unfold is_01, count_set, count_where.
  induction 1 as [|v l [-> | ->] _ IH]; [done | |].
  - change (np_sum (0 :: l)) with (0 + np_sum l). rewrite IH. reflexivity.
  - change (np_sum (1 :: l)) with (1 + np_sum l). rewrite IH.
    change (List.filter _ (1 :: l)) with (1 :: List.filter (fun v => negb (v =? 0)) l).
    simpl length. lia.
Qed.

Lemma is_01_plane (a : ndarray) (i : nat) : is_01 (data a) → is_01 (np_plane a i).
Proof. intros H. unfold np_plane. now apply Forall_take, Forall_drop. Qed.

Lemma logical_and_truthy (p l : list Z) :
  np_sum_bool (np_logical_and (np_truthy p) (np_truthy l))
  = count_where (fun lp => negb (lp.2 =? 0) && negb (lp.1 =? 0)) (zip l p).
Proof.
  unfold np_logical_and, np_truthy. rewrite <- np_sum_bool_map. f_equal.
  revert p. induction l as [|x l IH]; intros [|y p]; simpl; try done.
  now rewrite IH.
Qed.

Lemma logical_and_eq_scalar_truthy (p l : list Z) (k : Z) :
  np_sum_bool (np_logical_and (np_eq_scalar p k) (np_truthy l))
  = count_where (fun lp => (lp.2 =? k) && negb (lp.1 =? 0)) (zip l p).
Proof.
  unfold np_logical_and, np_truthy, np_eq_scalar. rewrite <- np_sum_bool_map. f_equal.
  revert p. induction l as [|x l IH]; intros [|y p]; simpl; try done.
  now rewrite IH.
Qed.

(** ** Mean accuracy and mean IoU, class by class *)

Lemma py_assert_true (A : Type) (c : bool) (k : result A) :
  c = true → (py_assert c ;; k) = k.
Proof. now intros ->. Qed.

Lemma segm_mean_accuracy_hmasks_loop (label pred : ndarray) :
  shape pred = shape label → ndim pred = 3%nat →
  segm_mean_accuracy_hmasks label pred
  = Ok (spec_class_mean (shape0 label)
          (fun i => negb (np_sum (np_plane label i) =? 0))
          (fun i => np_sum_bool (np_logical_and (np_truthy (np_plane pred i))
                                                (np_truthy (np_plane label i))))
          (fun i => np_sum (np_plane label i))).
Proof.
  intros Hsh Hnd. unfold segm_mean_accuracy_hmasks, shape_eqb.
  rewrite py_assert_true by now apply bool_decide_eq_true_2.
  rewrite py_assert_true by now apply Nat.eqb_eq.
  rewrite <- class_loop_mean by (intros i _ Hs; now apply Z.eqb_neq).
  unfold class_loop. cbv beta zeta.
  now destruct (fold_left _ _ _) as [i_sum acc].
Qed.

Lemma segm_mean_iou_imasks_loop (label pred : ndarray) :
  shape pred = shape label → ndim pred = 3%nat →
  segm_mean_iou_imasks label pred
  = Ok (spec_class_mean (shape0 label)
          (fun i => negb (np_sum (np_plane label i) =? 0))
          (fun i => np_sum_bool (np_logical_and (np_truthy (np_plane pred i))
                                                (np_truthy (np_plane label i))))
          (fun i => np_sum (np_plane label i))).
Proof.
  intros Hsh Hnd. unfold segm_mean_iou_imasks, shape_eqb.
  rewrite py_assert_true by now apply bool_decide_eq_true_2.
  rewrite py_assert_true by now apply Nat.eqb_eq.
  rewrite <- class_loop_mean by (intros i _ Hs; now apply Z.eqb_neq).
  unfold class_loop. cbv beta zeta.
  now destruct (fold_left _ _ _) as [i_sum acc].
Qed.

Lemma segm_mean_accuracy_loop (label pred : ndarray) :
  ndim label = 3%nat → ndim pred = 2%nat → shape pred = tail (shape label) →
  segm_mean_accuracy label pred
  = Ok (spec_class_mean (shape0 label)
          (fun i => negb (np_sum (np_plane label i) =? 0))
          (fun i => np_sum_bool (np_logical_and (np_eq_scalar (data pred) (Z.of_nat i))
                                                (np_truthy (np_plane label i))))
          (fun i => np_sum (np_plane label i))).
Proof.
  intros Hl Hp Hsh. unfold segm_mean_accuracy, shape_eqb.
  rewrite py_assert_true by now apply Nat.eqb_eq.
  rewrite py_assert_true by now apply Nat.eqb_eq.
  rewrite py_assert_true by now apply bool_decide_eq_true_2.
  rewrite <- class_loop_mean by (intros i _ Hs; now apply Z.eqb_neq).
  unfold class_loop. cbv beta zeta.
  now destruct (fold_left _ _ _) as [i_sum acc].
Qed.

Lemma seg_mean_iou_np_loop (label pred : ndarray) :
  ndim label = 3%nat → ndim pred = 2%nat → shape pred = tail (shape label) →
  (∀ i, (i < shape0 label)%nat →
     let u_i := np_sum (np_plane label i) in
     let u_ji_sj := np_sum_bool (np_eq_scalar (data pred) (Z.of_nat i)) in
     let u_ii := np_sum_bool (np_logical_and (np_eq_scalar (data pred) (Z.of_nat i))
                                             (np_truthy (np_plane label i))) in
     u_i + u_ji_sj ≠ 0 → u_i + u_ji_sj - u_ii ≠ 0) →
  seg_mean_iou_np label pred
  = Ok (spec_class_mean (shape0 label)
          (fun i => negb (np_sum (np_plane label i)
                          + np_sum_bool (np_eq_scalar (data pred) (Z.of_nat i)) =? 0))
          (fun i => np_sum_bool (np_logical_and (np_eq_scalar (data pred) (Z.of_nat i))
                                                (np_truthy (np_plane label i))))
          (fun i => np_sum (np_plane label i)
                    + np_sum_bool (np_eq_scalar (data pred) (Z.of_nat i))
                    - np_sum_bool (np_logical_and (np_eq_scalar (data pred) (Z.of_nat i))
                                                  (np_truthy (np_plane label i))))).
Proof.
  intros Hl Hp Hsh Hden. unfold seg_mean_iou_np, shape_eqb.
  rewrite py_assert_true by now apply Nat.eqb_eq.
  rewrite py_assert_true by now apply Nat.eqb_eq.
  rewrite py_assert_true by now apply bool_decide_eq_true_2.
  rewrite <- class_loop_mean
    by (intros i Hi Hs; apply Hden; [done|]; now apply Z.eqb_neq).
  unfold class_loop. cbv beta zeta.
  now destruct (fold_left _ _ _) as [i_sum acc].
Qed.

Lemma spec_class_mean_ext (n : nat) (c1 c2 : nat → bool) (n1 n2 d1 d2 : nat → Z) :
  (∀ i, (i < n)%nat → c1 i = c2 i ∧ n1 i = n2 i ∧ d1 i = d2 i) →
  spec_class_mean n c1 n1 d1 = spec_class_mean n c2 n2 d2.
Proof.
  intros H. unfold spec_class_mean.
  assert (Hf : List.filter c1 (seq 0 n) = List.filter c2 (seq 0 n)).
  { apply List.filter_ext_in. intros i Hi.
    apply list_elem_of_In, elem_of_seq in Hi. apply H. lia. }
  rewrite Hf. destruct (List.filter c2 (seq 0 n)) as [|c cs] eqn:E; [done|].
  do 4 f_equal. apply map_ext_in. intros i Hi. rewrite <- E in Hi.
  apply List.filter_In in Hi as [Hi _].
  apply list_elem_of_In, elem_of_seq in Hi.
  destruct (H i) as (_ & -> & ->); [lia | done].
Qed.

(** C4. On conformant masks whose label planes hold zeros and ones, each of
    the three mean-accuracy functions returns the mean, over the classes
    whose ground-truth pixel count [u i] is not zero, of the number of
    pixels set in both the prediction and the label of class [i] divided by
    [u i].  Classes without support add nothing to the sum and are not
    counted in the divisor, and when no class has support the result is
    [1.0]. *)
Theorem mean_accuracy_spec (label_hmask pred_hmask pred_imask : ndarray) :
  is_01 (data label_hmask) →
  ndim label_hmask = 3%nat →
  shape pred_hmask = shape label_hmask →
  ndim pred_imask = 2%nat →
  shape pred_imask = tail (shape label_hmask) →
  let n := shape0 label_hmask in
  let u := fun i => count_set (np_plane label_hmask i) in
  let supported := fun i => negb (u i =? 0) in
  let u_hh := fun i =>
    count_where (fun lp => negb (lp.2 =? 0) && negb (lp.1 =? 0))
                (zip (np_plane label_hmask i) (np_plane pred_hmask i)) in
  let u_hi := fun i =>
    count_where (fun lp => (lp.2 =? Z.of_nat i) && negb (lp.1 =? 0))
                (zip (np_plane label_hmask i) (data pred_imask)) in
  segm_mean_accuracy_hmasks label_hmask pred_hmask
    = Ok (spec_class_mean n supported u_hh u)
  ∧ segm_mean_accuracy label_hmask pred_imask
    = Ok (spec_class_mean n supported u_hi u)
  ∧ segm_mean_iou_imasks label_hmask pred_hmask
    = Ok (spec_class_mean n supported u_hh u)
  ∧ ((∀ i, (i < n)%nat → u i = 0) →
     ∀ num, spec_class_mean n supported num u = Fin 1).
Proof.
  intros H01 Hnd Hsh Hnd2 Hsh2 n u supported u_hh u_hi.
  assert (Hnd3 : ndim pred_hmask = 3%nat) by (unfold ndim in *; now rewrite Hsh).
  assert (Hu : ∀ i, np_sum (np_plane label_hmask i) = u i).
  { intros i. apply np_sum_is_01. now apply is_01_plane. }
  repeat split.
  - rewrite segm_mean_accuracy_hmasks_loop by done. f_equal.
    apply spec_class_mean_ext. intros i _. unfold supported.
    rewrite Hu. repeat split. apply logical_and_truthy.
  - rewrite segm_mean_accuracy_loop by done. f_equal.
    apply spec_class_mean_ext. intros i _. unfold supported.
    rewrite Hu. repeat split. apply logical_and_eq_scalar_truthy.
  - rewrite segm_mean_iou_imasks_loop by done. f_equal.
    apply spec_class_mean_ext. intros i _. unfold supported.
    rewrite Hu. repeat split. apply logical_and_truthy.
  - intros Hz num. unfold spec_class_mean.
    replace (List.filter supported (seq 0 n)) with (@nil nat); [done|].
    symmetry. apply filter_none. intros i Hi.
    apply list_elem_of_In, elem_of_seq in Hi. unfold supported.
    rewrite Hz by lia. reflexivity.
Qed.

Lemma mean_accuracy_spec_witness :
  let label_hmask := mk_ndarray [2; 2; 2]%nat [1; 0; 0; 0; 0; 1; 1; 1] in
  let pred_hmask := mk_ndarray [2; 2; 2]%nat [1; 1; 0; 0; 0; 0; 1; 1] in
  let pred_imask := mk_ndarray [2; 2]%nat [0; 0; 1; 1] in
  segm_mean_accuracy_hmasks label_hmask pred_hmask = Ok (Fin (5 # 6))
  ∧ segm_mean_accuracy label_hmask pred_imask = Ok (Fin (5 # 6))
  ∧ segm_mean_iou_imasks label_hmask pred_hmask = Ok (Fin (5 # 6)).
Proof.
  intros label_hmask pred_hmask pred_imask.
  assert (H01 : is_01 (data label_hmask))
    by (repeat constructor; (now left) || (now right)).
  destruct (mean_accuracy_spec label_hmask pred_hmask pred_imask
              H01 eq_refl eq_refl eq_refl eq_refl) as (H1 & H2 & H3 & _).
  rewrite H1, H2, H3. repeat split.
Defined.

(** C5. [segm_mean_accuracy_hmasks] and [segm_mean_iou_imasks] return the
    same value (or raise the same error) on every pair of arguments. *)
Theorem segm_mean_iou_imasks_same (label_hmask pred_hmask : ndarray) :
  segm_mean_accuracy_hmasks label_hmask pred_hmask
  = segm_mean_iou_imasks label_hmask pred_hmask.
Proof. reflexivity. Qed.

(** ** Batch size *)

(** C7. [prepare_tf_context] returns the batch size times the number of
    GPUs, counted as one when there is none: 32 for (0, 32), 128 for (4, 32). *)
Theorem prepare_tf_context_spec :
  (∀ num_gpus batch_size : Z,
     prepare_tf_context num_gpus batch_size = batch_size * Z.max 1 num_gpus)
  ∧ prepare_tf_context 0 32 = 32
  ∧ prepare_tf_context 4 32 = 128.
Proof. repeat split. Qed.

(** ** Identical masks: the metrics that skip empty classes *)

Lemma count_where_all {A : Type} (f : A → bool) (l : list A) :
  (∀ x, x ∈ l → f x = true) → count_where f l = Z.of_nat (length l).
Proof.
  intros H. unfold count_where. do 2 f_equal.
  induction l as [|x l IH]; [done|]. simpl.
  rewrite (H x) by left. simpl. f_equal. apply IH.
  intros y Hy. apply H. now right.
Qed.





(** The plane of class [k] in the one-hot encoding of an index mask. *)
Lemma np_sum_indicator (m : list Z) (k : Z) :
  np_sum (map (fun v => if v =? k then 1 else 0) m) = np_sum_bool (np_eq_scalar m k).
Proof.
  unfold np_sum_bool, np_eq_scalar, np_astype_int. now rewrite map_map.
Qed.

Lemma logical_and_indicator (m : list Z) (k : Z) :
  np_sum_bool (np_logical_and (np_eq_scalar m k)
                 (np_truthy (map (fun v => if v =? k then 1 else 0) m)))
  = np_sum_bool (np_eq_scalar m k).
Proof.
  f_equal. unfold np_logical_and, np_eq_scalar, np_truthy.
  induction m as [|v m IH]; [done|]. simpl. rewrite IH.
  now destruct (v =? k).
Qed.


(** ** The histogram over the class range *)

Lemma hist_keep_spec (first_edge last_edge : Q) (v : Z) :
  hist_keep first_edge last_edge v = true
  ↔ (first_edge <= inject_Z v)%Q ∧ (inject_Z v <= last_edge)%Q.
Proof.
  unfold hist_keep. rewrite !Qle_alt.
  destruct (first_edge ?= inject_Z v)%Q, (inject_Z v ?= last_edge)%Q;
    split; try done; intros [? ?]; done.
Qed.

Lemma Qfloor_div (a b : Z) : Qfloor (inject_Z a / inject_Z b) = a / b.
Proof. symmetry. apply Zdiv_Qdiv. Qed.

Lemma inject_Z_minus (a b : Z) : (inject_Z (a - b) == inject_Z a - inject_Z b)%Q.
Proof. unfold Z.sub. rewrite inject_Z_plus, inject_Z_opp. reflexivity. Qed.

(** With [n >= 2] bins over the range (1, n), the value [v] of that range
    falls in bin [v - 1]. *)
Lemma hist_index_classes (n v : Z) :
  2 ≤ n → 1 ≤ v ≤ n →
  hist_index (inject_Z 1) (inject_Z n) n v = v - 1.
Proof.
  intros Hn Hv. unfold hist_index.
  assert (E : Qfloor ((inject_Z v - inject_Z 1) * inject_Z n / (inject_Z n - inject_Z 1))
              = ((v - 1) * n) / (n - 1)).
  { rewrite <- Qfloor_div. apply Qfloor_comp.
    now rewrite inject_Z_mult, !inject_Z_minus. }
  rewrite E. clear E.
  destruct (Z.eq_dec v n) as [-> | Hne].
  - rewrite Z.mul_comm, Z.div_mul by lia. now rewrite Z.eqb_refl.
  - replace ((v - 1) * n) with ((v - 1) * (n - 1) + (v - 1)) by ring.
    rewrite Z.div_add_l, Z.div_small by lia.
    rewrite Z.add_0_r. apply Z.eqb_neq in Hne as Hne'.
    destruct (v - 1 =? n) eqn:E; [apply Z.eqb_eq in E; lia | done].
Qed.

Lemma hist_keep_classes (n v : Z) :
  hist_keep (inject_Z 1) (inject_Z n) v = true ↔ 1 ≤ v ≤ n.
Proof. rewrite hist_keep_spec, <- !Zle_Qle. done. Qed.

(** With one bin the range (1, 1) is widened to (1/2, 3/2). *)
Lemma hist_keep_single (v : Z) :
  hist_keep (inject_Z 1 - (1 # 2)) (inject_Z 1 + (1 # 2)) v = true ↔ v = 1.
Proof.
  rewrite hist_keep_spec. unfold Qle, inject_Z. simpl. lia.
Qed.

Lemma hist_count (keep : Z → bool) (idx : Z → Z) (b : Z) (a : list Z) :
  (∀ v, keep v = true → (idx v = b ↔ v = b + 1)) →
  keep (b + 1) = true →
  Z.of_nat (length (filter (fun i => i = b)
                           (map idx (filter (fun v => keep v = true) a))))
  = count_where (fun v => v =? b + 1) a.
Proof.
  intros Hidx Hkeep. unfold count_where. f_equal.
  induction a as [|v a IH]; [done|].
  rewrite filter_cons. simpl List.filter.
  destruct (decide (keep v = true)) as [Hk | Hk].
  - change (map idx (v :: ?l)) with (idx v :: map idx l).
    rewrite filter_cons. specialize (Hidx v Hk).
    destruct (decide (idx v = b)) as [Hi | Hi].
    + apply Hidx in Hi as ->. rewrite Z.eqb_refl. simpl. now rewrite IH.
    + destruct (v =? b + 1) eqn:E; [|done].
      apply Z.eqb_eq in E. now apply Hidx in E.
  - destruct (v =? b + 1) eqn:E; [|done].
    apply Z.eqb_eq in E. subst v. done.
Qed.

Lemma np_histogram_classes (a : list Z) (n : Z) :
  1 ≤ n →
  np_histogram a n 1 n
  = Ok (map (fun b => count_where (fun v => v =? Z.of_nat b + 1) a)
            (seq 0 (Z.to_nat n))).
Proof.
  intros Hn. unfold np_histogram.
  destruct (n <? 1) eqn:E1; [apply Z.ltb_lt in E1; lia|].
  destruct (1 =? n) eqn:E2.
  - apply Z.eqb_eq in E2. subst n. f_equal.
    apply map_ext_in. intros b Hb.
    apply list_elem_of_In, elem_of_seq in Hb.
    assert (b = 0%nat) as -> by lia.
    apply (hist_count _ _ 0).
    + intros v Hk. apply hist_keep_single in Hk. subst v. done.
    + now apply hist_keep_single.
  - apply Z.eqb_neq in E2. f_equal.
    apply map_ext_in. intros b Hb.
    apply list_elem_of_In, elem_of_seq in Hb.
    apply hist_count.
    + intros v Hk. apply hist_keep_classes in Hk.
      rewrite hist_index_classes by lia. lia.
    + apply hist_keep_classes. lia.
Qed.

(** ** Mean IoU over histogram bins *)

Lemma existsb_id_false (l : list bool) :
  np_any l = false → Forall (fun b => b = false) l.
Proof.
  unfold np_any. induction l as [|b l IH]; [constructor|]. simpl.
  intros H. apply orb_false_iff in H as [Hb Hl]. constructor; auto.
Qed.


(** The prediction after the masking, [l] and [p] being the shifted label
    and prediction: a pixel whose shifted label is negative is set to
    zero. *)
Lemma pred_shift_mask (l p : list Z) :
  length l = length p →
  (if np_any (np_lt_scalar l 0)
   then np_mul p (np_astype_int (np_ge_scalar l 0))
   else p)
  = map (fun lp => if lp.1 <? 0 then 0 else lp.2) (zip l p).
Proof.
  intros Hlen.
  destruct (np_any (np_lt_scalar l 0)) eqn:Hany.
  - clear Hany. unfold np_mul, np_astype_int, np_ge_scalar.
    revert p Hlen. induction l as [|x l IH]; intros [|y p] Hlen; simpl in *; try done.
    rewrite IH by lia. f_equal.
    destruct (Z.ltb_spec x 0), (Z.leb_spec 0 x); cbn [negb]; lia.
  - apply existsb_id_false in Hany.
    unfold np_lt_scalar in *. rewrite Forall_map in Hany.
    revert p Hlen. induction l as [|x l IH]; intros [|y p] Hlen; simpl in *; try done.
    inversion Hany as [|? ? Hx Hl]; subst. cbn beta in Hx.
    rewrite Hx. f_equal. apply IH; [done | lia].
Qed.

Lemma count_where_map {A B : Type} (f : B → bool) (g : A → B) (l : list A) :
  count_where f (map g l) = count_where (fun x => f (g x)) l.
Proof.
  unfold count_where. f_equal.
  induction l as [|x l IH]; [done|]. simpl.
  destruct (f (g x)); simpl; now rewrite IH.
Qed.

Lemma zip_with_map_same {A B C D : Type} (f : B → C → D) (g : A → B) (h : A → C)
    (l : list A) :
  zip_with f (map g l) (map h l) = map (fun x => f (g x) (h x)) l.
Proof. induction l as [|x l IH]; [done|]. simpl. now rewrite IH. Qed.

Lemma eps_plus_int_nonzero (k : Z) : ¬ (inject_Z k + eps == 0)%Q.
Proof. unfold Qeq, Qplus, inject_Z, eps. simpl. lia. Qed.

Lemma np_truediv_smoothed (a k : Z) :
  np_truediv (float_of_int a) (fadd (float_of_int k) (Fin eps))
  = Fin (Qred (inject_Z a / Qred (inject_Z k + eps))).
Proof.
  unfold float_of_int, fadd, np_truediv.
  destruct (Qeq_bool (Qred (inject_Z k + eps)) 0) eqn:E; [|done].
  apply Qeq_bool_iff in E. rewrite Qred_correct in E.
  now apply eps_plus_int_nonzero in E.
Qed.

Lemma fsum_fin {A : Type} (f : A → Q) (l : list A) (q0 : Q) :
  ∃ q, fold_left fadd (map (fun x => Fin (f x)) l) (Fin q0) = Fin q
       ∧ (q == q0 + Qsum (map f l))%Q.
Proof.
  revert q0. induction l as [|x l IH]; intros q0; simpl.
  - exists q0. split; [done | ring].
  - destruct (IH (Qred (q0 + f x))) as (q & Hq & E).
    exists q. unfold fadd at 2. split; [done|].
    rewrite E, Qred_correct. ring.
Qed.

Lemma Qsum_ext {A : Type} (f g : A → Q) (l : list A) :
  (∀ x, (f x == g x)%Q) → (Qsum (map f l) == Qsum (map g l))%Q.
Proof.
  intros H. induction l as [|x l IH]; [reflexivity|]. simpl.
  now rewrite H, IH.
Qed.

Lemma fmean_fin {A : Type} (f g : A → Q) (l : list A) :
  l ≠ [] → (∀ x, (f x == g x)%Q) →
  fmean (map (fun x => Fin (f x)) l)
  = Fin (Qred (Qsum (map g l) / inject_Z (Z.of_nat (length l)))).
Proof.
  intros Hne Hfg. unfold fmean, fsum.
  destruct (fsum_fin f l 0) as (q & -> & E).
  rewrite length_map, np_truediv_fin_int by (destruct l; [done | simpl; lia]).
  f_equal. apply Qred_complete. rewrite E, Qplus_0_l.
  now rewrite (Qsum_ext f g).
Qed.

Lemma map_fst_zip {A B : Type} (l : list A) (k : list B) :
  length l = length k → map (fun lp : A * B => lp.1) (zip l k) = l.
Proof.
  revert k. induction l as [|x l IH]; intros [|y k] Hlen; simpl in *; try done.
  f_equal. apply IH. lia.
Qed.

(** With [ignore_bg=False]: both arrays are shifted in the store, and the
    result is the mean over the bins of the smoothed ratios of the counts
    taken on the shifted arrays, class [c] being the value [c + 1] there;
    the prediction is not counted where the shifted label is negative. *)
Lemma seg_mean_iou_imasks_np_run (σ : gmap nat ndarray) (lbl prd : nat)
    (L P : ndarray) (num_classes : Z) :
  σ !! lbl = Some L → σ !! prd = Some P → lbl ≠ prd →
  wf_ndarray L → wf_ndarray P →
  ndim L = 2%nat → shape P = shape L → 1 ≤ num_classes →
  seg_mean_iou_imasks_np lbl prd num_classes false σ
  = (<[prd := shifted P]> (<[lbl := shifted L]> σ),
     Ok (Fin (Qred (Qsum (map (fun c : nat =>
                smoothed_iou
                  (count_where (fun lp => (lp.2 =? Z.of_nat c + 1)
                                          && (lp.1 =? Z.of_nat c + 1))
                               (pixels (shifted L) (shifted P)))
                  (count_where (fun lp => (lp.2 =? Z.of_nat c + 1) && (0 <=? lp.1))
                               (pixels (shifted L) (shifted P)))
                  (count_where (fun lp => lp.1 =? Z.of_nat c + 1)
                               (pixels (shifted L) (shifted P))))
                (seq 0 (Z.to_nat num_classes)))
              / inject_Z num_classes)))).
Proof.
  intros Hl Hp Hne HwL HwP Hnd Hsh Hn.
  assert (Hnd2 : ndim P = 2%nat) by (unfold ndim in *; now rewrite Hsh).
  assert (Hlen : length (data (shifted L)) = length (data (shifted P))).
  { unfold shifted, np_add_scalar. cbn [data]. rewrite !length_map.
    now apply wf_same_length. }
  unfold seg_mean_iou_imasks_np.
  unfold mbind, M_bind, load, lift, mret, M_ret, iadd.
  rewrite Hl, Hp. rewrite Hnd, Hnd2. cbn [Nat.eqb py_assert].
  unfold shape_eqb. rewrite bool_decide_eq_true_2 by done. cbn [py_assert].
  rewrite Hl. cbv beta iota.
  rewrite lookup_insert_ne, Hp by done. cbv beta iota.
  rewrite lookup_insert_ne, lookup_insert_eq by done. cbv beta iota.
  rewrite lookup_insert_eq. cbv beta iota. cbn [data shape].
  rewrite !np_histogram_classes by done.
  fold (shifted L). fold (shifted P).
  change (np_add_scalar (data L) 1) with (data (shifted L)).
  change (np_add_scalar (data P) 1) with (data (shifted P)).
  f_equal. f_equal.
  rewrite pred_shift_mask by done.
  set (z := zip (data (shifted L)) (data (shifted P))).
  replace (data (shifted L)) with (map (fun lp : Z * Z => lp.1) z)
    by (unfold z; now apply map_fst_zip).
  unfold np_mul, np_eq, np_astype_int.
  rewrite zip_with_map_same, map_map, zip_with_map_same.
  rewrite map_map, !zip_with_map_same.
  unfold pixels. fold z.
  set (inter := fun c : nat =>
    count_where (fun lp => (lp.2 =? Z.of_nat c + 1) && (lp.1 =? Z.of_nat c + 1)) z).
  set (predc := fun c : nat =>
    count_where (fun lp => (lp.2 =? Z.of_nat c + 1) && (0 <=? lp.1)) z).
  set (labelc := fun c : nat =>
    count_where (fun lp => lp.1 =? Z.of_nat c + 1) z).
  transitivity
    (fmean (map (fun c => Fin (Qred (inject_Z (inter c)
                   / Qred (inject_Z (predc c + labelc c - inter c) + eps))))
                (seq 0 (Z.to_nat num_classes)))).
  { f_equal. apply map_ext. intros c.
    rewrite np_truediv_smoothed, !count_where_map.
    unfold inter, predc, labelc.
    assert (E1 : count_where
        (fun x : Z * Z =>
           (if x.1 <? 0 then 0 else x.2)
           * (if (if x.1 <? 0 then 0 else x.2) =? x.1 then 1 else 0)
           =? Z.of_nat c + 1) z
        = count_where (fun lp => (lp.2 =? Z.of_nat c + 1) && (lp.1 =? Z.of_nat c + 1)) z).
    { apply count_where_ext; intros [l p] _; cbn [fst snd]; bool_cases. }
    assert (E2 : count_where
        (fun x : Z * Z => (if x.1 <? 0 then 0 else x.2) =? Z.of_nat c + 1) z
        = count_where (fun lp => (lp.2 =? Z.of_nat c + 1) && (0 <=? lp.1)) z).
    { apply count_where_ext; intros [l p] _; cbn [fst snd]; bool_cases. }
    now rewrite E1, E2. }
  rewrite (fmean_fin _ (fun c => smoothed_iou (inter c) (predc c) (labelc c))).
  - now rewrite length_seq, Z2Nat.id by lia.
  - destruct (Z.to_nat num_classes) eqn:E; [lia | done].
  - intros c. unfold smoothed_iou. now rewrite !Qred_correct.
Qed.

Lemma pred_bg_mask (l p : list Z) :
  length l = length p →
  np_mul p (np_astype_int (np_gt_scalar l 0))
  = map (fun lp => if 0 <? lp.1 then lp.2 else 0) (zip l p).
Proof.
  unfold np_mul, np_astype_int, np_gt_scalar.
  revert p. induction l as [|x l IH]; intros [|y p] Hlen; simpl in *; try done.
  rewrite IH by lia. f_equal. destruct (0 <? x); lia.
Qed.

(** With [ignore_bg=True]: one bin per class from 1 on, the prediction being
    zeroed where the label is the background or the vague index. *)
Lemma seg_mean_iou_imasks_np_run_ignore_bg (σ : gmap nat ndarray) (lbl prd : nat)
    (L P : ndarray) (num_classes : Z) :
  σ !! lbl = Some L → σ !! prd = Some P →
  wf_ndarray L → wf_ndarray P →
  ndim L = 2%nat → shape P = shape L → 2 ≤ num_classes →
  seg_mean_iou_imasks_np lbl prd num_classes true σ
  = (σ,
     Ok (Fin (Qred (Qsum (map (fun b : nat =>
                smoothed_iou
                  (count_where (fun lp => (lp.2 =? Z.of_nat b + 1) && (lp.1 =? Z.of_nat b + 1))
                               (pixels L P))
                  (count_where (fun lp => (lp.2 =? Z.of_nat b + 1) && (0 <? lp.1))
                               (pixels L P))
                  (count_where (fun lp => lp.1 =? Z.of_nat b + 1) (pixels L P)))
                (seq 0 (Z.to_nat (num_classes - 1))))
              / inject_Z (num_classes - 1))))).
Proof.
  intros Hl Hp HwL HwP Hnd Hsh Hn.
  assert (Hnd2 : ndim P = 2%nat) by (unfold ndim in *; now rewrite Hsh).
  assert (Hlen : length (data L) = length (data P))
    by now apply wf_same_length.
  unfold seg_mean_iou_imasks_np.
  unfold mbind, M_bind, load, lift, mret, M_ret.
  rewrite Hl, Hp. rewrite Hnd, Hnd2. cbn [Nat.eqb py_assert].
  unfold shape_eqb. rewrite bool_decide_eq_true_2 by done. cbn [py_assert].
  cbv beta iota.
  rewrite !np_histogram_classes by lia.
  f_equal. f_equal.
  rewrite pred_bg_mask by done.
  set (z := zip (data L) (data P)).
  replace (data L) with (map (fun lp : Z * Z => lp.1) z)
    by (unfold z; now apply map_fst_zip).
  unfold np_mul, np_eq, np_astype_int.
  rewrite zip_with_map_same, map_map, zip_with_map_same.
  rewrite map_map, !zip_with_map_same.
  transitivity
    (fmean (map (fun b : nat => Fin (Qred (inject_Z
        (count_where (fun lp => (lp.2 =? Z.of_nat b + 1) && (lp.1 =? Z.of_nat b + 1)) z)
        / Qred (inject_Z
            (count_where (fun lp => (lp.2 =? Z.of_nat b + 1) && (0 <? lp.1)) z
             + count_where (fun lp => lp.1 =? Z.of_nat b + 1) z
             - count_where (fun lp => (lp.2 =? Z.of_nat b + 1) && (lp.1 =? Z.of_nat b + 1)) z)
          + eps))))
       (seq 0 (Z.to_nat (num_classes - 1))))).
  { f_equal. apply map_ext. intros b.
    rewrite np_truediv_smoothed, !count_where_map.
    assert (E1 : count_where
        (fun x : Z * Z =>
           (if 0 <? x.1 then x.2 else 0)
           * (if (if 0 <? x.1 then x.2 else 0) =? x.1 then 1 else 0)
           =? Z.of_nat b + 1) z
        = count_where (fun lp => (lp.2 =? Z.of_nat b + 1) && (lp.1 =? Z.of_nat b + 1)) z).
    { apply count_where_ext; intros [l p] _; cbn [fst snd]; bool_cases. }
    assert (E2 : count_where
        (fun x : Z * Z => (if 0 <? x.1 then x.2 else 0) =? Z.of_nat b + 1) z
        = count_where (fun lp => (lp.2 =? Z.of_nat b + 1) && (0 <? lp.1)) z).
    { apply count_where_ext; intros [l p] _; cbn [fst snd]; bool_cases. }
    now rewrite E1, E2. }
  unfold pixels. fold z.
  rewrite (fmean_fin _ (fun b : nat =>
    smoothed_iou
      (count_where (fun lp => (lp.2 =? Z.of_nat b + 1) && (lp.1 =? Z.of_nat b + 1)) z)
      (count_where (fun lp => (lp.2 =? Z.of_nat b + 1) && (0 <? lp.1)) z)
      (count_where (fun lp => lp.1 =? Z.of_nat b + 1) z))).
  - now rewrite length_seq, Z2Nat.id by lia.
  - destruct (Z.to_nat (num_classes - 1)) eqn:E; [lia | done].
  - intros c. unfold smoothed_iou. now rewrite !Qred_correct.
Qed.

Lemma count_where_nonneg {A : Type} (f : A → bool) (l : list A) :
  0 ≤ count_where f l.
Proof. unfold count_where. lia. Qed.

Lemma count_where_mono {A : Type} (f g : A → bool) (l : list A) :
  (∀ x, f x = true → g x = true) → count_where f l ≤ count_where g l.
Proof.
  intros H. unfold count_where.
  induction l as [|x l IH]; [done|]. simpl.
  destruct (f x) eqn:Hf.
  - rewrite (H x Hf). simpl length. lia.
  - destruct (g x); simpl length; lia.
Qed.








(** ** In-place updates *)

(** With [ignore_bg=True] no array of the store is touched. *)
Lemma seg_mean_iou_imasks_np_ignore_bg_frame (σ : gmap nat ndarray)
    (lbl prd : nat) (num_classes : Z) :
  (seg_mean_iou_imasks_np lbl prd num_classes true σ).1 = σ.
Proof.
  unfold seg_mean_iou_imasks_np, mbind, M_bind, load, lift, mret, M_ret.
  destruct (σ !! lbl) as [L|]; [|done].
  destruct (σ !! prd) as [P|]; [|done].
  destruct (py_assert (ndim L =? 2)%nat); [|done].
  destruct (py_assert (ndim P =? 2)%nat); [|done].
  destruct (py_assert (shape_eqb (shape P) (shape L))); [|done].
  repeat (match goal with
          | |- context [np_histogram ?a ?b ?c ?d] =>
              destruct (np_histogram a b c d)
          end; try done).
Qed.

(** With [ignore_bg=False] both arguments are shifted in the caller's store. *)
Lemma seg_mean_iou_imasks_np_store (σ : gmap nat ndarray) (lbl prd : nat)
    (L P : ndarray) (num_classes : Z) :
  σ !! lbl = Some L → σ !! prd = Some P → lbl ≠ prd →
  wf_ndarray L → wf_ndarray P →
  ndim L = 2%nat → shape P = shape L → 1 ≤ num_classes →
  (seg_mean_iou_imasks_np lbl prd num_classes false σ).1 !! lbl = Some (shifted L)
  ∧ (seg_mean_iou_imasks_np lbl prd num_classes false σ).1 !! prd = Some (shifted P).
Proof.
  intros Hl Hp Hne HwL HwP Hnd Hsh Hn.
  rewrite (seg_mean_iou_imasks_np_run σ lbl prd L P num_classes) by done.
  cbn [fst]. split.
  - now rewrite lookup_insert_ne, lookup_insert_eq.
  - now rewrite lookup_insert_eq.
Qed.

(** When one array object is passed as label and as prediction, it is
    shifted twice, and the classes leave their bins. *)
Lemma seg_mean_iou_imasks_np_aliased :
  let mask := mk_ndarray [2; 2]%nat [0; 1; 1; 1] in
  let σ : gmap nat ndarray := <[0%nat := mask]> ∅ in
  seg_mean_iou_imasks_np 0%nat 0%nat 2 false σ
  = (<[0%nat := mk_ndarray [2; 2]%nat [2; 3; 3; 3]]> ∅,
     Ok (Fin (4194304 # 8388609))).
Proof. vm_compute. reflexivity. Qed.

(** C2. The metrics are not all free of side effects.  On the label mask
    [[0, 1], [1, 1]] and an equal prediction held in two arrays,
    [seg_mean_iou_imasks_np] with two classes leaves both arrays of the
    caller shifted by one, and a second call on the same arrays returns
    another value than the first. *)
Theorem seg_mean_iou_imasks_np_not_pure :
  let mask := mk_ndarray [2; 2]%nat [0; 1; 1; 1] in
  let σ : gmap nat ndarray := <[1%nat := mask]> (<[0%nat := mask]> ∅) in
  let first := seg_mean_iou_imasks_np 0%nat 1%nat 2 false σ in
  let second := seg_mean_iou_imasks_np 0%nat 1%nat 2 false first.1 in
  first.1 !! 0%nat = Some (mk_ndarray [2; 2]%nat [1; 2; 2; 2])
  ∧ first.1 !! 1%nat = Some (mk_ndarray [2; 2]%nat [1; 2; 2; 2])
  ∧ first.1 ≠ σ
  ∧ first.2 = Ok (Fin (211106249310208 # 211106266087425))
  ∧ second.2 = Ok (Fin (4194304 # 8388609))
  ∧ (seg_mean_iou_imasks_np 0%nat 1%nat 2 true σ).1 = σ.
Proof.
  intros mask σ first second.
  assert (H0 : first.1 !! 0%nat = Some (mk_ndarray [2; 2]%nat [1; 2; 2; 2]))
    by (vm_compute; reflexivity).
  split; [exact H0|].
  split; [vm_compute; reflexivity|].
  split.
  { intros E. rewrite E in H0. vm_compute in H0. discriminate. }
  split; [vm_compute; reflexivity|].
  split; [vm_compute; reflexivity|].
  apply seg_mean_iou_imasks_np_ignore_bg_frame.
Qed.

(** ** Model preparation *)

Section PrepareModel.
Context {network : Type}.
Variable get_model : string → bool → Z → result network.
Variable isfile : string → bool.

Lemma path_truthy_some (path : string) :
  path ≠ "" → path_truthy (Some path) = Some path.
Proof. intros H. unfold path_truthy. now rewrite bool_decide_eq_false_2. Qed.

(** C8, as amended.  A call with a non-empty path that names no file cannot
    return, and its trace holds no graph construction and no loader.  When
    the registry gives a network, the call raises the assertion error of
    the file test, at which its trace stops.  When the registry raises, its
    exception is the one of the call and the file is not tested.  When the
    file exists the wrapped model comes back with the loader built for the
    path, and without a path the loader is absent. *)
Theorem prepare_model_spec (model_name : string) (classes : Z)
    (use_pretrained : bool) (path : string) :
  path ≠ "" →
  let call :=
    prepare_model get_model isfile model_name classes use_pretrained (Some path) in
  (isfile path = false →
     (∃ e, snd call = Raise e)
     ∧ (EvBuildGraph ∉ fst call)
     ∧ (EvGetModelLoader path ∉ fst call)
     ∧ ∀ net, get_model model_name use_pretrained classes = Ok net →
         call = ([EvGetModel model_name use_pretrained classes; EvIsFile path],
                 Raise AssertionError))
  ∧ (∀ e, get_model model_name use_pretrained classes = Raise e →
       call = ([EvGetModel model_name use_pretrained classes], Raise e))
  ∧ (isfile path = true →
     ∀ net, get_model model_name use_pretrained classes = Ok net →
       snd call = Ok (ImageNetModel_init net, Some (ModelLoader path))
       ∧ (EvGetModelLoader path ∈ fst call)
       ∧ (EvBuildGraph ∉ fst call))
  ∧ (∀ net, get_model model_name use_pretrained classes = Ok net →
       snd (prepare_model get_model isfile model_name classes use_pretrained None)
         = Ok (ImageNetModel_init net, None)
       ∧ snd (prepare_model get_model isfile model_name classes use_pretrained (Some ""))
         = Ok (ImageNetModel_init net, None)).
Proof.
  intros Hpath call. subst call. unfold prepare_model.
  rewrite (path_truthy_some path Hpath).
  split; [|split; [|split]].
  - intros Hfile. rewrite Hfile.
    destruct (get_model model_name use_pretrained classes) as [net|e]; cbn.
    + repeat split; eauto;
        rewrite !elem_of_cons, ?elem_of_nil; intuition discriminate.
    + repeat split; eauto; try discriminate;
        rewrite !elem_of_cons, ?elem_of_nil; intuition discriminate.
  - intros e He. now rewrite He.
  - intros Hfile net Hnet. rewrite Hfile, Hnet. cbn.
    repeat split; rewrite !elem_of_cons, ?elem_of_nil; intuition discriminate.
  - intros net Hnet. rewrite Hnet. split; reflexivity.
Qed.
End PrepareModel.

Lemma prepare_model_spec_witness :
  let get_model := fun (_ : string) (_ : bool) (_ : Z) => Ok tt in
  let isfile := fun p : string => bool_decide (p = "resnet18.npz") in
  (prepare_model get_model isfile "resnet18" 1000 false (Some "missing.npz")
   = ([EvGetModel "resnet18" false 1000; EvIsFile "missing.npz"], Raise AssertionError))
  ∧ (prepare_model get_model isfile "resnet18" 1000 false (Some "resnet18.npz")).2
    = Ok (ImageNetModel_init tt, Some (ModelLoader "resnet18.npz")).
Proof.
  intros get_model isfile. split.
  - assert (Hp : "missing.npz" ≠ "") by discriminate.
    destruct (prepare_model_spec get_model isfile "resnet18" 1000 false "missing.npz" Hp)
      as (Hmiss & _ & _ & _).
    destruct (Hmiss eq_refl) as (_ & _ & _ & Hcall).
    exact (Hcall tt eq_refl).
  - assert (Hp : "resnet18.npz" ≠ "") by discriminate.
    destruct (prepare_model_spec get_model isfile "resnet18" 1000 false "resnet18.npz" Hp)
      as (_ & _ & Hfile & _).
    destruct (Hfile eq_refl tt eq_refl) as (Hres & _).
    exact Hres.
Defined.

(** C8, counterexample.  A call with a path that names no file does not
    always fail with the error of the missing file: when the registry
    refuses the model name, here with [ValueError], that exception is
    raised, and the trace shows that the file was never tested. *)
Lemma prepare_model_registry_refuses :
  let get_model := fun (_ : string) (_ : bool) (_ : Z) => @Raise unit ValueError in
  let isfile := fun _ : string => false in
  let call :=
    prepare_model get_model isfile "nosuchnet" 1000 false (Some "missing.npz") in
  call = ([EvGetModel "nosuchnet" false 1000], Raise ValueError)
  ∧ call.2 ≠ Raise AssertionError
  ∧ EvIsFile "missing.npz" ∉ call.1.
Proof.
  intros get_model isfile call.
  split; [reflexivity|]. split; [discriminate|].
  subst call. cbn. rewrite elem_of_cons, elem_of_nil. intuition discriminate.
Qed.

(** ** The random resized crop *)

Lemma Qlt_bool_false (a b : Q) : (b <= a)%Q → Qlt_bool a b = false.
Proof. intros H. unfold Qlt_bool. apply Qle_bool_iff in H. now rewrite H. Qed.

Lemma Qlt_bool_true (a b : Q) : (a < b)%Q → Qlt_bool a b = true.
Proof.
  intros H. unfold Qlt_bool. destruct (Qle_bool b a) eqn:E; [|done].
  apply Qle_bool_iff in E. lra.
Qed.

(** [int_sqrt_half x] is the integer nearest to the square root of [x]:
    [n - 1/2 <= sqrt x < n + 1/2], stated on the squares. *)
Lemma int_sqrt_half_nearest (x : Q) (n : Z) :
  int_sqrt_half x = Ok n →
  0 ≤ n
  ∧ ((inject_Z ((2 * n - 1) * (2 * n - 1)) <= 4 * x)%Q ∨ n = 0)
  ∧ (4 * x < inject_Z ((2 * n + 1) * (2 * n + 1)))%Q.
Proof.
  unfold int_sqrt_half. destruct (Qlt_bool x 0) eqn:E; [done|].
  intros H.
  assert (n = (Z.sqrt (Qfloor (4 * x)) + 1) / 2) as -> by congruence.
  clear H.
  assert (Hx : (0 <= 4 * x)%Q).
  { unfold Qlt_bool in E. apply negb_false_iff, Qle_bool_iff in E. lra. }
  set (f := Qfloor (4 * x)).
  assert (Hf : 0 ≤ f).
  { change 0 with (Qfloor 0). now apply Qfloor_resp_le. }
  pose proof (Z.sqrt_spec f Hf) as [Hs1 Hs2].
  pose proof (Z.sqrt_nonneg f) as Hs0.
  set (s := Z.sqrt f) in *.
  pose proof (Qfloor_le (4 * x)) as Hlo. fold f in Hlo.
  pose proof (Qlt_floor (4 * x)) as Hhi. fold f in Hhi.
  pose proof (Z.div_mod (s + 1) 2 ltac:(lia)) as Hdm.
  pose proof (Z.mod_pos_bound (s + 1) 2 ltac:(lia)) as Hm.
  set (n := (s + 1) / 2) in *.
  split; [lia|]. split.
  - destruct (Z.eq_dec n 0) as [Hn | Hn]; [now right | left].
    apply Qle_trans with (inject_Z f); [|done].
    rewrite <- Zle_Qle. nia.
  - apply Qlt_le_trans with (inject_Z (f + 1)); [done|].
    rewrite <- Zle_Qle. nia.
Qed.

Lemma int_sqrt_half_ge1 (x : Q) :
  (1 # 4 <= x)%Q → ∃ n, int_sqrt_half x = Ok n ∧ 1 ≤ n.
Proof.
  intros Hx. unfold int_sqrt_half.
  rewrite Qlt_bool_false by lra.
  eexists. split; [reflexivity|].
  assert (Hf : 1 ≤ Qfloor (4 * x)).
  { change 1 with (Qfloor 1). apply Qfloor_resp_le. lra. }
  assert (Hs : 1 ≤ Z.sqrt (Qfloor (4 * x))).
  { change 1 with (Z.sqrt 1) at 1. now apply Z.sqrt_le_mono. }
  apply Z.div_le_lower_bound; lia.
Qed.

Lemma rng_randint_range (u : Q) (k : Z) :
  (0 <= u)%Q → (u < 1)%Q → 0 < k →
  ∃ x, rng_randint u 0 k = Ok x ∧ 0 ≤ x < k.
Proof.
  intros Hu0 Hu1 Hk. unfold rng_randint.
  destruct (k <=? 0) eqn:E; [apply Z.leb_le in E; lia|].
  eexists. split; [reflexivity|]. rewrite Z.add_0_l, Z.sub_0_r.
  assert (Hkq : (0 < inject_Z k)%Q) by (change 0%Q with (inject_Z 0); now rewrite <- Zlt_Qlt).
  split.
  - change 0 with (Qfloor 0). apply Qfloor_resp_le. nra.
  - rewrite Zlt_Qlt. apply Qle_lt_trans with (u * inject_Z k)%Q.
    + apply Qfloor_le.
    + nra.
Qed.

Lemma slice_len_inside (len a n : Z) :
  0 ≤ a → 0 ≤ n → a + n ≤ len → slice_len len a (a + n) = n.
Proof. unfold slice_len. lia. Qed.

Lemma candidate_bounds (caf lo hi u u' area t2 : Q) :
  (0 < caf)%Q → (caf <= 1)%Q → (0 < lo)%Q → (lo <= hi)%Q →
  (1 <= 4 * caf * lo * t2)%Q → (hi <= 4 * caf * t2)%Q →
  (0 <= u)%Q → (u < 1)%Q → (0 <= u')%Q → (u' < 1)%Q →
  (0 < t2)%Q → (t2 <= area)%Q →
  let targetArea := (rng_uniform u caf 1 * area)%Q in
  let aspectR := rng_uniform u' lo hi in
  (0 < aspectR)%Q
  ∧ (1 # 4 <= targetArea * aspectR)%Q
  ∧ (1 # 4 <= targetArea / aspectR)%Q.
Proof.
  intros Hc0 Hc1 Hlo Hlh Hmin Hmax Hu0 Hu1 Hv0 Hv1 Ht Harea.
  unfold rng_uniform. cbv zeta.
  set (a := (caf + (1 - caf) * u)%Q).
  set (r := (lo + (hi - lo) * u')%Q).
  assert (Ha : (caf <= a)%Q) by (unfold a; nra).
  assert (Hr1 : (lo <= r)%Q) by (unfold r; nra).
  assert (Hr2 : (r <= hi)%Q) by (unfold r; nra).
  assert (Hta : (caf * t2 <= a * area)%Q) by nra.
  assert (Hpos : (0 < caf * t2)%Q) by nra.
  split; [lra|]. split.
  - apply Qle_trans with (caf * t2 * lo)%Q; [lra|]. nra.
  - apply Qle_shift_div_l; [lra|]. lra.
Qed.

Section GoogleNetResize.
Variable self : GoogleNetResize.
Variable rng : nat → Q.
Variable img : image.

Hypothesis Hcfg : nonempty_crops self.
Hypothesis Hrng : unit_draws rng.
Hypothesis Htarget : 0 < target_shape self.
Hypothesis Hh : target_shape self ≤ img_h img.
Hypothesis Hw : target_shape self ≤ img_w img.

Lemma resize_crop_size (ww hh : Z) (pos : nat) :
  1 ≤ ww ≤ img_w img → 1 ≤ hh ≤ img_h img →
  ('(x1, pos) ← (if img_w img =? ww then Ok (0, pos)
                 else x ← rng_randint (rng pos) 0 (img_w img - ww); Ok (x, S pos));
   '(y1, pos) ← (if img_h img =? hh then Ok (0, pos)
                 else y ← rng_randint (rng pos) 0 (img_h img - hh); Ok (y, S pos));
   let out := mk_image (slice_len (img_h img) y1 (y1 + hh))
                       (slice_len (img_w img) x1 (x1 + ww)) in
   cv2_resize out (target_shape self) (target_shape self))
  = Ok (mk_image (target_shape self) (target_shape self)).
Proof.
  intros Hww Hhh.
  assert (Hx : ∃ x1 pos',
    (if img_w img =? ww then Ok (0, pos)
     else x ← rng_randint (rng pos) 0 (img_w img - ww); Ok (x, S pos))
    = Ok (x1, pos') ∧ 0 ≤ x1 ∧ x1 + ww ≤ img_w img).
  { destruct (Z.eqb_spec (img_w img) ww) as [E | E].
    - exists 0, pos. split; [done | lia].
    - destruct (rng_randint_range (rng pos) (img_w img - ww)) as (x & -> & Hxr);
        [apply Hrng | apply Hrng | lia |].
      exists x, (S pos). split; [done | lia]. }
  destruct Hx as (x1 & pos' & -> & Hx0 & Hx1). cbn [mbind result_bind].
  assert (Hy : ∃ y1 pos'',
    (if img_h img =? hh then Ok (0, pos')
     else y ← rng_randint (rng pos') 0 (img_h img - hh); Ok (y, S pos'))
    = Ok (y1, pos'') ∧ 0 ≤ y1 ∧ y1 + hh ≤ img_h img).
  { destruct (Z.eqb_spec (img_h img) hh) as [E | E].
    - exists 0, pos'. split; [done | lia].
    - destruct (rng_randint_range (rng pos') (img_h img - hh)) as (y & -> & Hyr);
        [apply Hrng | apply Hrng | lia |].
      exists y, (S pos'). split; [done | lia]. }
  destruct Hy as (y1 & pos'' & -> & Hy0 & Hy1). cbn [mbind result_bind].
  rewrite !slice_len_inside by lia.
  unfold cv2_resize. cbn [img_h img_w].
  repeat match goal with
  | |- context [(?a <=? ?b)%Z] => destruct (Z.leb_spec a b); [lia|]
  end. reflexivity.
Qed.

Lemma fallback_size :
  (out ← ResizeShortestEdge (target_shape self) img;
   CenterCrop (target_shape self) out)
  = Ok (mk_image (target_shape self) (target_shape self)).
Proof.
  set (T := target_shape self) in *.
  unfold ResizeShortestEdge.
  destruct (Z.eqb_spec (Z.min (img_h img) (img_w img)) 0) as [E | _]; [lia|].
  set (m := Z.min (img_h img) (img_w img)).
  assert (Hm : 0 < m) by (unfold m; lia).
  assert (Hmq : (0 < inject_Z m)%Q)
    by (change 0%Q with (inject_Z 0); now rewrite <- Zlt_Qlt).
  assert (Hround : ∀ d, m ≤ d →
    T ≤ Qfloor (inject_Z T / inject_Z m * inject_Z d + (1 # 2))).
  { intros d Hd. rewrite <- (Qfloor_Z T) at 1. apply Qfloor_resp_le.
    assert (Hd' : (inject_Z m <= inject_Z d)%Q) by now rewrite <- Zle_Qle.
    assert (HT : (0 < inject_Z T)%Q)
      by (change 0%Q with (inject_Z 0); now rewrite <- Zlt_Qlt).
    assert (Hq : (inject_Z T <= inject_Z T / inject_Z m * inject_Z d)%Q).
    { assert (E : (inject_Z T / inject_Z m * inject_Z d
                   == inject_Z T * inject_Z d / inject_Z m)%Q) by (field; lra).
      rewrite E. apply Qle_shift_div_l; [done | nra]. }
    lra. }
  destruct (Z.ltb_spec (img_h img) (img_w img)) as [Hlt | Hge].
  - pose proof (Hround (img_w img) ltac:(unfold m; lia)) as Hn.
    set (neww := Qfloor _) in *.
    unfold cv2_resize.
    repeat match goal with
    | |- context [(?a <=? ?b)%Z] => destruct (Z.leb_spec a b); [lia|]
    end. cbn [orb mbind result_bind].
    unfold CenterCrop. cbn [img_h img_w].
    rewrite py_assert_true
      by (apply andb_true_iff; split; apply Z.leb_le; lia).
    pose proof (Z.div_mod (neww - T) 2 ltac:(lia)).
    pose proof (Z.mod_pos_bound (neww - T) 2 ltac:(lia)).
    pose proof (Z.div_mod (T - T) 2 ltac:(lia)).
    pose proof (Z.mod_pos_bound (T - T) 2 ltac:(lia)).
    rewrite !slice_len_inside by lia. reflexivity.
  - pose proof (Hround (img_h img) ltac:(unfold m; lia)) as Hn.
    set (newh := Qfloor _) in *.
    unfold cv2_resize.
    repeat match goal with
    | |- context [(?a <=? ?b)%Z] => destruct (Z.leb_spec a b); [lia|]
    end. cbn [orb mbind result_bind].
    unfold CenterCrop. cbn [img_h img_w].
    rewrite py_assert_true
      by (apply andb_true_iff; split; apply Z.leb_le; lia).
    pose proof (Z.div_mod (newh - T) 2 ltac:(lia)).
    pose proof (Z.mod_pos_bound (newh - T) 2 ltac:(lia)).
    pose proof (Z.div_mod (T - T) 2 ltac:(lia)).
    pose proof (Z.mod_pos_bound (T - T) 2 ltac:(lia)).
    rewrite !slice_len_inside by lia. reflexivity.
Qed.

Lemma augment_loop_size (k pos : nat) :
  augment_loop self rng img k pos
  = Ok (mk_image (target_shape self) (target_shape self)).
Proof.
  revert pos. induction k as [|k IH]; intros pos.
  - apply fallback_size.
  - cbn [augment_loop].
    destruct Hcfg as (Hc0 & Hc1 & Hlo & Hlh & Hmin & Hmax).
    assert (Ht2 : (0 < inject_Z (target_shape self * target_shape self))%Q).
    { change 0%Q with (inject_Z 0). rewrite <- Zlt_Qlt. nia. }
    assert (Harea : (inject_Z (target_shape self * target_shape self)
                     <= inject_Z (img_h img * img_w img))%Q).
    { rewrite <- Zle_Qle. nia. }
    destruct (candidate_bounds (crop_area_fraction self) (aspect_ratio_low self)
                (aspect_ratio_high self) (rng pos) (rng (pos + 1)%nat)
                (inject_Z (img_h img * img_w img))
                (inject_Z (target_shape self * target_shape self)))
      as (HaR & H1 & H2); try done; try apply Hrng.
    destruct (int_sqrt_half_ge1 _ H1) as (ww & -> & Hww).
    cbn [mbind result_bind].
    destruct (Qeq_bool _ 0) eqn:E.
    { apply Qeq_bool_iff in E. rewrite E in HaR. lra. }
    cbn [mbind result_bind].
    destruct (int_sqrt_half_ge1 _ H2) as (hh & -> & Hhh).
    cbn [mbind result_bind].
    destruct (Qlt_bool (rng (pos + 2)%nat) (1 # 2)).
    + destruct ((ww <=? img_h img) && (hh <=? img_w img)) eqn:Hfit.
      * apply andb_true_iff in Hfit as [Hf1 Hf2].
        apply Z.leb_le in Hf1, Hf2. apply resize_crop_size; lia.
      * apply IH.
    + destruct ((hh <=? img_h img) && (ww <=? img_w img)) eqn:Hfit.
      * apply andb_true_iff in Hfit as [Hf1 Hf2].
        apply Z.leb_le in Hf1, Hf2. apply resize_crop_size; lia.
      * apply IH.
Qed.
End GoogleNetResize.

(** The default crop parameters leave no candidate empty as soon as the
    target size is three or more. *)
Lemma default_nonempty_crops (target : Z) :
  3 ≤ target →
  nonempty_crops
    (mk_GoogleNetResize (crop_area_fraction GoogleNetResize_default)
                        (aspect_ratio_low GoogleNetResize_default)
                        (aspect_ratio_high GoogleNetResize_default) target).
Proof.
  intros Ht. unfold nonempty_crops. cbn.
  assert (H9 : (9 <= inject_Z (target * target))%Q).
  { change 9%Q with (inject_Z 9). rewrite <- Zle_Qle. nia. }
  repeat split; try (unfold Qlt, Qle; simpl; lia); lra.
Qed.

(** C9, as amended.  On an image at least as large as the target size, and
    with a configuration that leaves no candidate crop empty,
    [GoogleNetResize._augment] returns an image of exactly the target size
    for every outcome of the draws: through the resize of a fitting crop
    during the ten attempts, or through the fallback after them. *)
Theorem GoogleNetResize_augment_size (self : GoogleNetResize) (rng : nat → Q)
    (img : image) :
  nonempty_crops self → unit_draws rng →
  0 < target_shape self →
  target_shape self ≤ img_h img → target_shape self ≤ img_w img →
  GoogleNetResize_augment self rng img
  = Ok (mk_image (target_shape self) (target_shape self)).
Proof.
  intros Hcfg Hrng Ht Hh Hw. unfold GoogleNetResize_augment.
  now apply augment_loop_size.
Qed.

Lemma GoogleNetResize_augment_size_witness :
  GoogleNetResize_augment GoogleNetResize_default (fun _ => 1 # 2) (mk_image 300 400)
  = Ok (mk_image 224 224).
Proof.
  apply (GoogleNetResize_augment_size GoogleNetResize_default (fun _ => 1 # 2)
           (mk_image 300 400)).
  - apply (default_nonempty_crops 224). lia.
  - intros i. split; unfold Qle, Qlt; simpl; lia.
  - reflexivity.
  - simpl. lia.
  - simpl. lia.
Defined.

(** C9, counterexample.  With target size 1 and the default crop
    parameters, a 1x1 image and draws all equal to 1/10, the first candidate
    crop is 0x0: it fits, and [cv2.resize] refuses it. *)
Lemma GoogleNetResize_augment_empty_crop :
  let self := mk_GoogleNetResize (8 # 100) (75 # 100) (1333 # 1000) 1 in
  let rng := fun _ : nat => 1 # 10 in
  let img := mk_image 1 1 in
  unit_draws rng
  ∧ target_shape self ≤ img_h img ∧ target_shape self ≤ img_w img
  ∧ GoogleNetResize_augment self rng img = Raise CvError
  ∧ GoogleNetResize_augment self rng img
    ≠ Ok (mk_image (target_shape self) (target_shape self)).
Proof.
  intros self rng img.
  split; [intros i; split; unfold Qle, Qlt; simpl; lia|].
  split; [simpl; lia|]. split; [simpl; lia|].
  split; [vm_compute; reflexivity|].
  vm_compute. discriminate.
Qed.

(** ** Identical masks: the metrics smoothed by epsilon *)

Lemma Qsum_le_length {A : Type} (f : A → Q) (l : list A) :
  (∀ x, x ∈ l → (f x <= 1)%Q) →
  (Qsum (map f l) <= inject_Z (Z.of_nat (length l)))%Q.
Proof.
  induction l as [|x l IH]; intros H; [apply Qle_refl|].
  change (Qsum (map f (x :: l))) with (f x + Qsum (map f l))%Q.
  replace (Z.of_nat (length (x :: l))) with (1 + Z.of_nat (length l))
    by (simpl length; lia).
  rewrite inject_Z_plus.
  apply Qplus_le_compat; [apply H; left | apply IH].
  intros y Hy. apply H. now right.
Qed.

Lemma Qsum_lt_length {A : Type} (f : A → Q) (l : list A) :
  l ≠ [] → (∀ x, x ∈ l → (f x < 1)%Q) →
  (Qsum (map f l) < inject_Z (Z.of_nat (length l)))%Q.
Proof.
  destruct l as [|x l]; [done|]. intros _ H.
  change (Qsum (map f (x :: l))) with (f x + Qsum (map f l))%Q.
  replace (Z.of_nat (length (x :: l))) with (1 + Z.of_nat (length l))
    by (simpl length; lia).
  rewrite inject_Z_plus.
  apply Qplus_lt_le_compat; [apply H; left|].
  apply Qsum_le_length. intros y Hy. apply Qlt_le_weak, H. now right.
Qed.

Lemma smoothed_iou_range (inter pred label : Z) :
  0 ≤ inter → inter ≤ pred → inter ≤ label →
  (0 <= smoothed_iou inter pred label)%Q ∧ (smoothed_iou inter pred label < 1)%Q.
Proof.
  intros Hi Hp Hl. unfold smoothed_iou.
  assert (Hiq : (0 <= inject_Z inter)%Q)
    by (change 0%Q with (inject_Z 0); now rewrite <- Zle_Qle).
  assert (Hu : (inject_Z inter <= inject_Z (pred + label - inter))%Q)
    by (rewrite <- Zle_Qle; lia).
  assert (He : (0 < eps)%Q) by reflexivity.
  generalize dependent (inject_Z (pred + label - inter)).
  generalize dependent (inject_Z inter).
  generalize dependent eps. intros e He i Hiq u Hu.
  split.
  - apply Qle_shift_div_l; lra.
  - apply Qlt_shift_div_r; lra.
Qed.

Lemma Qsum_nonneg {A : Type} (f : A → Q) (l : list A) :
  (∀ x, x ∈ l → (0 <= f x)%Q) → (0 <= Qsum (map f l))%Q.
Proof.
  induction l as [|x l IH]; intros H; [apply Qle_refl|].
  change (Qsum (map f (x :: l))) with (f x + Qsum (map f l))%Q.
  assert (0 <= f x)%Q by (apply H; left).
  assert (0 <= Qsum (map f l))%Q by (apply IH; intros y Hy; apply H; now right).
  lra.
Qed.

Lemma Qred_mean_range {A : Type} (f : A → Q) (l : list A) (n : Z) :
  l ≠ [] → n = Z.of_nat (length l) →
  (∀ x, x ∈ l → (0 <= f x)%Q ∧ (f x < 1)%Q) →
  (0 <= Qred (Qsum (map f l) / inject_Z n))%Q
  ∧ (Qred (Qsum (map f l) / inject_Z n) < 1)%Q.
Proof.
  intros Hne -> H. rewrite Qred_correct.
  assert (Hn : (0 < inject_Z (Z.of_nat (length l)))%Q).
  { change 0%Q with (inject_Z 0). rewrite <- Zlt_Qlt.
    destruct l; [done | simpl; lia]. }
  split.
  - apply Qle_shift_div_l; [done|]. rewrite Qmult_0_l.
    apply Qsum_nonneg. intros x Hx. now apply H.
  - apply Qlt_shift_div_r; [done|]. rewrite Qmult_1_l.
    apply Qsum_lt_length; [done|]. intros x Hx. now apply H.
Qed.





(* ================================================================== *)
(** * Part III: further properties                                     *)
(* ================================================================== *)

(** ** Pixel accuracy *)

Lemma Qred_ratio_unit (a b : Z) :
  0 ≤ a ≤ b → 0 < b →
  (0 <= Qred (inject_Z a / inject_Z b))%Q ∧ (Qred (inject_Z a / inject_Z b) <= 1)%Q.
Proof.
  intros Ha Hb. rewrite Qred_correct.
  assert (Hbq : (0 < inject_Z b)%Q)
    by (change 0%Q with (inject_Z 0); now rewrite <- Zlt_Qlt).
  assert (Haq : (0 <= inject_Z a)%Q)
    by (change 0%Q with (inject_Z 0); rewrite <- Zle_Qle; lia).
  assert (Hab : (inject_Z a <= inject_Z b)%Q) by (rewrite <- Zle_Qle; lia).
  split.
  - apply Qle_shift_div_l; [done|]. now rewrite Qmult_0_l.
  - apply Qle_shift_div_r; [done|]. now rewrite Qmult_1_l.
Qed.

Lemma Qred_zero_div (b : Z) : Qred (inject_Z 0 / inject_Z b) = 0%Q.
Proof.
  transitivity (Qred 0); [|reflexivity]. apply Qred_complete.
  unfold Qdiv. apply Qmult_0_l.
Qed.

Lemma pixels_length (label pred : ndarray) :
  length (data label) = length (data pred) →
  length (pixels label pred) = length (data pred).
Proof. intros H. unfold pixels. rewrite length_zip_with. lia. Qed.

(** X1. Whenever the pixel accuracy returns, it is a number between 0 and 1:
    always with [use_vague=True], and with [use_vague=False] on every mask
    that is not empty. *)
Theorem seg_pixel_accuracy_np_range (label pred : ndarray) (vague_idx : Z)
    (use_vague : bool) :
  wf_ndarray label → wf_ndarray pred → shape label = shape pred →
  (use_vague = false → data label ≠ []) →
  ∃ q, seg_pixel_accuracy_np label pred vague_idx use_vague = Ok (Fin q)
       ∧ (0 <= q)%Q ∧ (q <= 1)%Q.
Proof.
  intros Hl Hp Hsh Hne.
  pose proof (wf_same_length _ _ Hl Hp Hsh) as Hlen.
  destruct (seg_pixel_accuracy_np_counts label pred vague_idx Hl Hp Hsh) as [Hf Ht].
  destruct use_vague.
  - rewrite Ht.
    set (valid := count_where (fun lp : Z * Z => negb (lp.1 =? vague_idx))
                              (pixels label pred)).
    pose proof (count_where_nonneg (fun lp : Z * Z => negb (lp.1 =? vague_idx))
                                   (pixels label pred)) as Hv. fold valid in Hv.
    destruct (Z.eqb_spec valid 0) as [E | E].
    + exists 0%Q. repeat split; done.
    + eexists. split; [reflexivity|]. apply Qred_ratio_unit; [|lia].
      split; [apply count_where_nonneg|].
      apply count_where_mono. intros x Hx. now apply andb_true_iff in Hx.
  - rewrite Hf. specialize (Hne eq_refl).
    assert (Htot : 0 < Z.of_nat (length (data pred))).
    { rewrite <- Hlen. destruct (data label); [done | simpl; lia]. }
    destruct (Z.eqb_spec (Z.of_nat (length (data pred))) 0) as [E | _]; [lia|].
    eexists. split; [reflexivity|]. apply Qred_ratio_unit; [|done].
    rewrite <- (pixels_length label pred Hlen). apply count_where_le_length.
Qed.

Lemma seg_pixel_accuracy_np_range_witness :
  ∃ q, seg_pixel_accuracy_np (mk_ndarray [2; 2]%nat [0; 1; 1; -1])
         (mk_ndarray [2; 2]%nat [0; 1; 0; 1]) (-1) true = Ok (Fin q)
       ∧ (0 <= q)%Q ∧ (q <= 1)%Q.
Proof.
  apply (seg_pixel_accuracy_np_range (mk_ndarray [2; 2]%nat [0; 1; 1; -1])
           (mk_ndarray [2; 2]%nat [0; 1; 0; 1]) (-1) true);
    try reflexivity.
  discriminate.
Defined.

Lemma count_where_none {A : Type} (f : A → bool) (l : list A) :
  (∀ x, x ∈ l → f x = false) → count_where f l = 0.
Proof.
  intros H. unfold count_where. rewrite filter_none; [done|].
  intros x Hx. apply H. now apply list_elem_of_In.
Qed.

(** X2. When the prediction differs from the label at every pixel, the pixel
    accuracy is exactly [0.0], masked or not (the mask not being empty in the
    unmasked case). *)
Theorem seg_pixel_accuracy_np_no_match (label pred : ndarray) (vague_idx : Z) :
  wf_ndarray label → wf_ndarray pred → shape label = shape pred →
  Forall (fun lp : Z * Z => lp.2 ≠ lp.1) (pixels label pred) →
  (data label ≠ [] → seg_pixel_accuracy_np label pred vague_idx false = Ok (Fin 0))
  ∧ seg_pixel_accuracy_np label pred vague_idx true = Ok (Fin 0).
Proof.
  intros Hl Hp Hsh Hdiff.
  pose proof (wf_same_length _ _ Hl Hp Hsh) as Hlen.
  destruct (seg_pixel_accuracy_np_counts label pred vague_idx Hl Hp Hsh) as [Hf Ht].
  rewrite Forall_forall in Hdiff.
  split.
  - intros Hne. rewrite Hf.
    destruct (Z.eqb_spec (Z.of_nat (length (data pred))) 0) as [E | _].
    { rewrite <- Hlen in E. destruct (data label); [done | simpl in E; lia]. }
    rewrite count_where_none.
    + rewrite Qred_zero_div. reflexivity.
    + intros x Hx. apply Z.eqb_neq. exact (Hdiff x Hx).
  - rewrite Ht.
    destruct (count_where (fun lp : Z * Z => negb (lp.1 =? vague_idx))
                          (pixels label pred) =? 0); [reflexivity|].
    rewrite (count_where_none
               (fun lp : Z * Z => (lp.2 =? lp.1) && negb (lp.1 =? vague_idx))).
    { now rewrite Qred_zero_div. }
    intros x Hx. apply andb_false_iff. left. apply Z.eqb_neq. exact (Hdiff x Hx).
Qed.

Lemma seg_pixel_accuracy_np_no_match_witness :
  seg_pixel_accuracy_np (mk_ndarray [2; 2]%nat [0; 1; 1; 0])
    (mk_ndarray [2; 2]%nat [1; 0; 0; 1]) (-1) true = Ok (Fin 0).
Proof.
  apply (seg_pixel_accuracy_np_no_match (mk_ndarray [2; 2]%nat [0; 1; 1; 0])
           (mk_ndarray [2; 2]%nat [1; 0; 0; 1]) (-1));
    try reflexivity.
  repeat constructor; simpl; lia.
Defined.

Lemma np_eq_comm (a b : list Z) : np_eq a b = np_eq b a.
Proof.
  unfold np_eq. revert b. induction a as [|x a IH]; intros [|y b]; simpl; try done.
  now rewrite IH, Z.eqb_sym.
Qed.

(** X3. Without masking the pixel accuracy does not tell the label from the
    prediction: swapping the two arguments gives the same result, or the
    same error. *)
Theorem seg_pixel_accuracy_np_sym (label pred : ndarray) (vague_idx : Z) :
  seg_pixel_accuracy_np label pred vague_idx false
  = seg_pixel_accuracy_np pred label vague_idx false.
Proof.
  unfold seg_pixel_accuracy_np, shape_eqb.
  destruct (decide (shape label = shape pred)) as [E | E].
  - rewrite !bool_decide_eq_true_2 by done. cbn [py_assert mbind result_bind].
    unfold np_size. now rewrite np_eq_comm, E.
  - rewrite !bool_decide_eq_false_2 by congruence. reflexivity.
Qed.

Lemma count_where_filter {A : Type} (f g : A → bool) (l : list A) :
  count_where f (List.filter g l) = count_where (fun x => f x && g x) l.
Proof.
  unfold count_where. f_equal.
  induction l as [|x l IH]; [done|]. simpl.
  destruct (g x); simpl; [destruct (f x); simpl; now rewrite IH|].
  rewrite andb_false_r. exact IH.
Qed.

Lemma zip_map_fst_snd {A B : Type} (l : list (A * B)) :
  zip (map fst l) (map snd l) = l.
Proof. induction l as [|[a b] l IH]; [done|]. simpl. now rewrite IH. Qed.

(** X4. Masking is the same as leaving out the vague pixels: with
    [use_vague=True] the result is [0.0] when every label is vague, and
    otherwise the unmasked accuracy of the two masks without the pixels
    labelled vague. *)
Theorem seg_pixel_accuracy_np_drop_vague (label pred : ndarray) (vague_idx : Z) :
  wf_ndarray label → wf_ndarray pred → shape label = shape pred →
  let '(label', pred') := drop_vague label pred vague_idx in
  seg_pixel_accuracy_np label pred vague_idx true
  = if bool_decide (data label' = []) then Ok (Fin 0)
    else seg_pixel_accuracy_np label' pred' vague_idx false.
Proof.
  intros Hl Hp Hsh. unfold drop_vague.
  set (kept := List.filter (fun lp : Z * Z => negb (lp.1 =? vague_idx))
                           (pixels label pred)).
  destruct (seg_pixel_accuracy_np_counts label pred vague_idx Hl Hp Hsh) as [_ Ht].
  set (label' := mk_ndarray [length kept] (map fst kept)).
  set (pred' := mk_ndarray [length kept] (map snd kept)).
  assert (Hl' : wf_ndarray label')
    by (unfold wf_ndarray; cbn; rewrite length_map; lia).
  assert (Hp' : wf_ndarray pred')
    by (unfold wf_ndarray; cbn; rewrite length_map; lia).
  destruct (seg_pixel_accuracy_np_counts label' pred' vague_idx Hl' Hp' eq_refl)
    as [Hf' _].
  rewrite Ht, Hf'. clear Ht Hf'. subst label' pred'.
  assert (Hvalid : count_where (fun lp : Z * Z => negb (lp.1 =? vague_idx))
                               (pixels label pred) = Z.of_nat (length kept))
    by reflexivity.
  rewrite Hvalid. cbn [data].
  rewrite length_map.
  unfold pixels at 2. cbn [data]. rewrite zip_map_fst_snd.
  assert (Hagree : count_where (fun lp : Z * Z => lp.2 =? lp.1) kept
            = count_where (fun lp : Z * Z => (lp.2 =? lp.1) && negb (lp.1 =? vague_idx))
                          (pixels label pred))
    by (unfold kept; apply count_where_filter).
  rewrite Hagree. clear Hagree Hvalid Hl' Hp'.
  destruct kept as [|k kept'] eqn:Ek.
  - reflexivity.
  - rewrite bool_decide_eq_false_2 by discriminate.
    destruct (Z.eqb_spec (Z.of_nat (length (k :: kept'))) 0) as [E | _];
      [simpl in E; lia|]. reflexivity.
Qed.

Lemma seg_pixel_accuracy_np_drop_vague_witness :
  seg_pixel_accuracy_np (mk_ndarray [2; 2]%nat [0; 1; 1; -1])
    (mk_ndarray [2; 2]%nat [0; 1; 0; 1]) (-1) true
  = seg_pixel_accuracy_np (mk_ndarray [3]%nat [0; 1; 1])
      (mk_ndarray [3]%nat [0; 1; 0]) (-1) false.
Proof.
  exact (seg_pixel_accuracy_np_drop_vague (mk_ndarray [2; 2]%nat [0; 1; 1; -1])
           (mk_ndarray [2; 2]%nat [0; 1; 0; 1]) (-1) eq_refl eq_refl eq_refl).
Defined.

(** ** Mean IoU over histogram bins: errors and range *)

(** X5. A call whose masks fail a precondition (not 2-D, or of different
    shapes) raises the assertion error and leaves every array of the store
    as it was, whatever [ignore_bg] is. *)
Theorem seg_mean_iou_imasks_np_assert (σ : gmap nat ndarray) (lbl prd : nat)
    (L P : ndarray) (num_classes : Z) (ignore_bg : bool) :
  σ !! lbl = Some L → σ !! prd = Some P →
  ndim L ≠ 2%nat ∨ ndim P ≠ 2%nat ∨ shape P ≠ shape L →
  seg_mean_iou_imasks_np lbl prd num_classes ignore_bg σ = (σ, Raise AssertionError).
Proof.
  intros Hl Hp Hbad.
  unfold seg_mean_iou_imasks_np, mbind, M_bind, load, lift, mret, M_ret.
  rewrite Hl, Hp.
  destruct (Nat.eqb_spec (ndim L) 2) as [E1 | E1]; [|reflexivity].
  destruct (Nat.eqb_spec (ndim P) 2) as [E2 | E2]; [|reflexivity].
  cbn [py_assert]. unfold shape_eqb.
  destruct Hbad as [H | [H | H]]; [done | done |].
  now rewrite bool_decide_eq_false_2.
Qed.

Lemma seg_mean_iou_imasks_np_assert_witness :
  let L := mk_ndarray [2; 2]%nat [0; 1; 1; 1] in
  let P := mk_ndarray [4]%nat [0; 1; 1; 1] in
  let σ : gmap nat ndarray := <[1%nat := P]> (<[0%nat := L]> ∅) in
  seg_mean_iou_imasks_np 0%nat 1%nat 2 false σ = (σ, Raise AssertionError).
Proof.
  intros L P σ.
  apply (seg_mean_iou_imasks_np_assert σ 0%nat 1%nat L P 2 false);
    [reflexivity | reflexivity |].
  right. left. subst P. unfold ndim. simpl. lia.
Defined.



(** X7. On two distinct conformant masks, whatever they hold, the histogram
    mean IoU is a number from 0 up to, but never reaching, 1: for
    [num_classes >= 1] with [ignore_bg=False] and for [num_classes >= 2]
    with [ignore_bg=True]. *)
Theorem seg_mean_iou_imasks_np_range (σ : gmap nat ndarray) (lbl prd : nat)
    (L P : ndarray) (num_classes : Z) (ignore_bg : bool) :
  σ !! lbl = Some L → σ !! prd = Some P → lbl ≠ prd →
  wf_ndarray L → wf_ndarray P →
  ndim L = 2%nat → shape P = shape L →
  (if ignore_bg then 2 else 1) ≤ num_classes →
  ∃ q, snd (seg_mean_iou_imasks_np lbl prd num_classes ignore_bg σ) = Ok (Fin q)
       ∧ (0 <= q)%Q ∧ (q < 1)%Q.
Proof.
  intros Hl Hp Hne HwL HwP Hnd Hsh Hn.
  destruct ignore_bg.
  - rewrite (seg_mean_iou_imasks_np_run_ignore_bg σ lbl prd L P num_classes) by done.
    eexists. split; [reflexivity|].
    apply Qred_mean_range.
    + destruct (Z.to_nat (num_classes - 1)) eqn:E; [lia | done].
    + rewrite length_seq. lia.
    + intros b _. apply smoothed_iou_range.
      * apply count_where_nonneg.
      * apply count_where_mono. intros [l p]. cbn [fst snd]. bool_cases.
      * apply count_where_mono. intros [l p]. cbn [fst snd]. bool_cases.
  - rewrite (seg_mean_iou_imasks_np_run σ lbl prd L P num_classes) by done.
    eexists. split; [reflexivity|].
    apply Qred_mean_range.
    + destruct (Z.to_nat num_classes) eqn:E; [lia | done].
    + rewrite length_seq. lia.
    + intros b _. apply smoothed_iou_range.
      * apply count_where_nonneg.
      * apply count_where_mono. intros [l p]. cbn [fst snd]. bool_cases.
      * apply count_where_mono. intros [l p]. cbn [fst snd]. bool_cases.
Qed.

Lemma seg_mean_iou_imasks_np_range_witness :
  let L := mk_ndarray [2; 2]%nat [0; 1; 1; 1] in
  let P := mk_ndarray [2; 2]%nat [0; 0; 1; 1] in
  let σ : gmap nat ndarray := <[1%nat := P]> (<[0%nat := L]> ∅) in
  ∃ q, snd (seg_mean_iou_imasks_np 0%nat 1%nat 2 false σ) = Ok (Fin q)
       ∧ (0 <= q)%Q ∧ (q < 1)%Q.
Proof.
  intros L P σ.
  assert (Hne : 0%nat ≠ 1%nat) by lia.
  assert (Hn : 1 ≤ 2) by lia.
  exact (seg_mean_iou_imasks_np_range σ 0%nat 1%nat L P 2 false
           eq_refl eq_refl Hne eq_refl eq_refl eq_refl eq_refl Hn).
Defined.

Lemma seg_mean_iou_imasks_np_few_classes (σ : gmap nat ndarray) (lbl prd : nat)
    (L P : ndarray) (num_classes : Z) :
  σ !! lbl = Some L → σ !! prd = Some P →
  ndim L = 2%nat → shape P = shape L → num_classes < 2 →
  seg_mean_iou_imasks_np lbl prd num_classes true σ = (σ, Raise ValueError).
Proof.
  intros Hl Hp Hnd Hsh Hn.
  assert (Hnd2 : ndim P = 2%nat) by (unfold ndim in *; now rewrite Hsh).
  unfold seg_mean_iou_imasks_np.
  unfold mbind, M_bind, load, lift, mret, M_ret.
  rewrite Hl, Hp. rewrite Hnd, Hnd2. cbn [Nat.eqb py_assert].
  unfold shape_eqb. rewrite bool_decide_eq_true_2 by done. cbn [py_assert].
  cbv beta iota. unfold np_histogram at 1.
  destruct (Z.ltb_spec (num_classes - 1) 1) as [_ | E]; [reflexivity | lia].
Qed.

Lemma count_where_zip_agree (g : Z * Z → bool) (l p p' : list Z) :
  length p = length p' →
  (∀ k a b b', l !! k = Some a → p !! k = Some b → p' !! k = Some b' →
     g (a, b) = g (a, b')) →
  count_where g (zip l p) = count_where g (zip l p').
Proof.
  unfold count_where. intros Hlen H. apply (f_equal Z.of_nat).
  revert p p' Hlen H. induction l as [|a l IH]; intros [|b p] [|b' p'] Hlen H;
    simpl in *; try done.
  rewrite (H 0%nat a b b') by done.
  assert (IH' : length (List.filter g (zip l p)) = length (List.filter g (zip l p'))).
  { apply IH; [lia|]. intros k. apply (H (S k)). }
  destruct (g (a, b')); simpl; now rewrite IH'.
Qed.

(** X8. With [ignore_bg=True] the prediction made on a pixel that is not
    labelled with a foreground class plays no part: two predictions that
    agree wherever the label is positive get the same score. *)
Theorem seg_mean_iou_imasks_np_ignore_bg_background
    (σ σ' : gmap nat ndarray) (lbl prd : nat) (L P P' : ndarray) (num_classes : Z) :
  σ !! lbl = Some L → σ !! prd = Some P →
  σ' !! lbl = Some L → σ' !! prd = Some P' →
  wf_ndarray L → wf_ndarray P → wf_ndarray P' →
  ndim L = 2%nat → shape P = shape L → shape P' = shape L →
  (∀ k l p p', data L !! k = Some l → data P !! k = Some p →
     data P' !! k = Some p' → 0 < l → p = p') →
  snd (seg_mean_iou_imasks_np lbl prd num_classes true σ)
  = snd (seg_mean_iou_imasks_np lbl prd num_classes true σ').
Proof.
  intros Hl Hp Hl' Hp' HwL HwP HwP' Hnd Hsh Hsh' Hagree.
  destruct (Z.lt_ge_cases num_classes 2) as [Hn | Hn].
  - rewrite (seg_mean_iou_imasks_np_few_classes σ lbl prd L P) by done.
    now rewrite (seg_mean_iou_imasks_np_few_classes σ' lbl prd L P').
  - rewrite (seg_mean_iou_imasks_np_run_ignore_bg σ lbl prd L P num_classes) by done.
    rewrite (seg_mean_iou_imasks_np_run_ignore_bg σ' lbl prd L P' num_classes) by done.
    cbn [snd]. do 5 f_equal. apply map_ext. intros b. unfold pixels.
    assert (Hlen : length (data P) = length (data P')).
    { unfold wf_ndarray in *. now rewrite HwP, HwP', Hsh, Hsh'. }
    f_equal; apply count_where_zip_agree; try done;
      intros k l p p' H1 H2 H3; cbn [fst snd];
      destruct (Z.lt_ge_cases 0 l) as [Hpos | Hneg];
      try (rewrite (Hagree k l p p' H1 H2 H3 Hpos); reflexivity);
      bool_cases.
Qed.

Lemma seg_mean_iou_imasks_np_ignore_bg_background_witness :
  let L := mk_ndarray [2; 2]%nat [0; 1; 1; 2] in
  let P := mk_ndarray [2; 2]%nat [1; 1; 2; 2] in
  let P' := mk_ndarray [2; 2]%nat [2; 1; 2; 2] in
  let σ : gmap nat ndarray := <[1%nat := P]> (<[0%nat := L]> ∅) in
  let σ' : gmap nat ndarray := <[1%nat := P']> (<[0%nat := L]> ∅) in
  snd (seg_mean_iou_imasks_np 0%nat 1%nat 3 true σ)
  = snd (seg_mean_iou_imasks_np 0%nat 1%nat 3 true σ').
Proof.
  intros L P P' σ σ'.
  apply (seg_mean_iou_imasks_np_ignore_bg_background σ σ' 0%nat 1%nat L P P' 3);
    try reflexivity.
  intros k l p p' H1 H2 H3 Hpos.
  destruct k as [|[|[|[|k]]]]; simpl in H1, H2, H3; try congruence.
  injection H1 as <-. lia.
Defined.

(** ** Mean accuracy and mean IoU: range *)

Lemma Qsum_map_le_length {A : Type} (f : A → Q) (l : list A) :
  (∀ x, x ∈ l → (0 <= f x)%Q ∧ (f x <= 1)%Q) →
  (0 <= Qsum (map f l))%Q ∧ (Qsum (map f l) <= inject_Z (Z.of_nat (length l)))%Q.
Proof.
  intros H. split.
  - apply Qsum_nonneg. intros x Hx. now apply H.
  - apply Qsum_le_length. intros x Hx. now apply H.
Qed.

Lemma ratio_unit (a b : Z) :
  0 ≤ a ≤ b → 0 < b →
  (0 <= inject_Z a / inject_Z b)%Q ∧ (inject_Z a / inject_Z b <= 1)%Q.
Proof.
  intros Ha Hb. pose proof (Qred_ratio_unit a b Ha Hb) as H.
  now rewrite Qred_correct in H.
Qed.

Lemma spec_class_mean_range (n : nat) (counted : nat → bool) (num den : nat → Z) :
  (∀ i, (i < n)%nat → counted i = true → 0 ≤ num i ≤ den i ∧ 0 < den i) →
  ∃ q, spec_class_mean n counted num den = Fin q ∧ (0 <= q)%Q ∧ (q <= 1)%Q.
Proof.
  intros H. unfold spec_class_mean.
  destruct (List.filter counted (seq 0 n)) as [|c cs] eqn:Hf.
  - exists 1%Q. repeat split; done.
  - eexists. split; [reflexivity|]. rewrite Qred_correct.
    set (l := c :: cs) in *.
    assert (Hlen : (0 < inject_Z (Z.of_nat (length l)))%Q).
    { change 0%Q with (inject_Z 0). rewrite <- Zlt_Qlt. unfold l. simpl. lia. }
    destruct (Qsum_map_le_length
                (fun i => inject_Z (num i) / inject_Z (den i))%Q l) as [H0 H1].
    { intros i Hi. rewrite <- Hf in Hi.
      apply list_elem_of_In, List.filter_In in Hi as [Hi Hc].
      apply list_elem_of_In, elem_of_seq in Hi.
      destruct (H i) as [Hnum Hden]; [lia | done |]. now apply ratio_unit. }
    split.
    + apply Qle_shift_div_l; [done|]. now rewrite Qmult_0_l.
    + apply Qle_shift_div_r; [done|]. now rewrite Qmult_1_l.
Qed.

Lemma np_sum_bool_and_le_l (a b : list bool) :
  np_sum_bool (np_logical_and a b) ≤ np_sum_bool a.
Proof.
  unfold np_logical_and. revert b.
  induction a as [|x a IH]; intros [|y b]; simpl zip_with.
  - lia.
  - lia.
  - apply np_sum_bool_nonneg.
  - rewrite !np_sum_bool_cons. specialize (IH b). destruct x, y; simpl; lia.
Qed.

Lemma np_sum_bool_and_le_r (a b : list bool) :
  np_sum_bool (np_logical_and a b) ≤ np_sum_bool b.
Proof.
  unfold np_logical_and. revert b.
  induction a as [|x a IH]; intros [|y b]; simpl zip_with.
  - lia.
  - apply np_sum_bool_nonneg.
  - lia.
  - rewrite !np_sum_bool_cons. specialize (IH b). destruct x, y; simpl; lia.
Qed.

Lemma np_sum_bool_truthy (l : list Z) :
  is_01 l → np_sum_bool (np_truthy l) = np_sum l.
Proof.
  intros H. rewrite np_sum_is_01 by done.
  unfold np_truthy, count_set. apply np_sum_bool_map.
Qed.

(** X9. With label planes of zeros and ones, each of the three mean
    accuracies returns a number between 0 and 1 on conformant masks,
    whatever the prediction holds. *)
Theorem mean_accuracy_range (label_hmask pred_hmask pred_imask : ndarray) :
  is_01 (data label_hmask) →
  ndim label_hmask = 3%nat →
  shape pred_hmask = shape label_hmask →
  ndim pred_imask = 2%nat →
  shape pred_imask = tail (shape label_hmask) →
  (∃ q, segm_mean_accuracy_hmasks label_hmask pred_hmask = Ok (Fin q)
        ∧ (0 <= q)%Q ∧ (q <= 1)%Q)
  ∧ (∃ q, segm_mean_accuracy label_hmask pred_imask = Ok (Fin q)
          ∧ (0 <= q)%Q ∧ (q <= 1)%Q)
  ∧ (∃ q, segm_mean_iou_imasks label_hmask pred_hmask = Ok (Fin q)
          ∧ (0 <= q)%Q ∧ (q <= 1)%Q).
Proof.
  intros H01 Hnd Hsh Hnd2 Hsh2.
  assert (Hnd3 : ndim pred_hmask = 3%nat) by (unfold ndim in *; now rewrite Hsh).
  assert (Hbound : ∀ (b : list bool) i,
    negb (np_sum (np_plane label_hmask i) =? 0) = true →
    0 ≤ np_sum_bool (np_logical_and b (np_truthy (np_plane label_hmask i)))
      ≤ np_sum (np_plane label_hmask i)
    ∧ 0 < np_sum (np_plane label_hmask i)).
  { intros b i Hc. apply negb_true_iff, Z.eqb_neq in Hc.
    pose proof (np_sum_bool_nonneg
      (np_logical_and b (np_truthy (np_plane label_hmask i)))).
    pose proof (np_sum_bool_and_le_r b (np_truthy (np_plane label_hmask i))) as Hle.
    rewrite np_sum_bool_truthy in Hle by now apply is_01_plane.
    lia. }
  split; [|split].
  - rewrite segm_mean_accuracy_hmasks_loop by done.
    destruct (spec_class_mean_range (shape0 label_hmask)
      (fun i => negb (np_sum (np_plane label_hmask i) =? 0))
      (fun i => np_sum_bool (np_logical_and (np_truthy (np_plane pred_hmask i))
                                            (np_truthy (np_plane label_hmask i))))
      (fun i => np_sum (np_plane label_hmask i))) as (q & -> & Hq).
    { intros i _. apply Hbound. }
    now exists q.
  - rewrite segm_mean_accuracy_loop by done.
    destruct (spec_class_mean_range (shape0 label_hmask)
      (fun i => negb (np_sum (np_plane label_hmask i) =? 0))
      (fun i => np_sum_bool (np_logical_and (np_eq_scalar (data pred_imask) (Z.of_nat i))
                                            (np_truthy (np_plane label_hmask i))))
      (fun i => np_sum (np_plane label_hmask i))) as (q & -> & Hq).
    { intros i _. apply Hbound. }
    now exists q.
  - rewrite segm_mean_iou_imasks_loop by done.
    destruct (spec_class_mean_range (shape0 label_hmask)
      (fun i => negb (np_sum (np_plane label_hmask i) =? 0))
      (fun i => np_sum_bool (np_logical_and (np_truthy (np_plane pred_hmask i))
                                            (np_truthy (np_plane label_hmask i))))
      (fun i => np_sum (np_plane label_hmask i))) as (q & -> & Hq).
    { intros i _. apply Hbound. }
    now exists q.
Qed.

Lemma mean_accuracy_range_witness :
  let label_hmask := mk_ndarray [2; 2; 2]%nat [1; 0; 0; 0; 0; 1; 1; 1] in
  let pred_hmask := mk_ndarray [2; 2; 2]%nat [1; 1; 0; 0; 0; 0; 1; 1] in
  let pred_imask := mk_ndarray [2; 2]%nat [0; 0; 1; 1] in
  ∃ q, segm_mean_accuracy label_hmask pred_imask = Ok (Fin q)
       ∧ (0 <= q)%Q ∧ (q <= 1)%Q.
Proof.
  intros label_hmask pred_hmask pred_imask.
  assert (H01 : is_01 (data label_hmask))
    by (repeat constructor; (now left) || (now right)).
  exact (proj1 (proj2 (mean_accuracy_range label_hmask pred_hmask pred_imask
                         H01 eq_refl eq_refl eq_refl eq_refl))).
Defined.

(** X12. With label planes of zeros and ones, [seg_mean_iou_np] returns a
    finite number between 0 and 1 on conformant masks: no class that is
    counted has an empty union. *)
Theorem seg_mean_iou_np_range (label_hmask pred_imask : ndarray) :
  is_01 (data label_hmask) →
  ndim label_hmask = 3%nat → ndim pred_imask = 2%nat →
  shape pred_imask = tail (shape label_hmask) →
  ∃ q, seg_mean_iou_np label_hmask pred_imask = Ok (Fin q)
       ∧ (0 <= q)%Q ∧ (q <= 1)%Q.
Proof.
  intros H01 Hnd Hnd2 Hsh.
  assert (Hfacts : ∀ i,
    let u_i := np_sum (np_plane label_hmask i) in
    let u_ji_sj := np_sum_bool (np_eq_scalar (data pred_imask) (Z.of_nat i)) in
    let u_ii := np_sum_bool (np_logical_and (np_eq_scalar (data pred_imask) (Z.of_nat i))
                                            (np_truthy (np_plane label_hmask i))) in
    0 ≤ u_ii ∧ u_ii ≤ u_i ∧ u_ii ≤ u_ji_sj).
  { intros i. cbv zeta. repeat split.
    - apply np_sum_bool_nonneg.
    - rewrite <- (np_sum_bool_truthy (np_plane label_hmask i))
        by now apply is_01_plane.
      apply np_sum_bool_and_le_r.
    - apply np_sum_bool_and_le_l. }
  rewrite seg_mean_iou_np_loop; try done.
  - match goal with
    | |- ∃ q, Ok (spec_class_mean ?n ?c ?num ?den) = _ ∧ _ =>
        destruct (spec_class_mean_range n c num den) as (q & -> & Hq)
    end.
    { intros i _ Hc. apply negb_true_iff, Z.eqb_neq in Hc.
      specialize (Hfacts i). cbv zeta in Hfacts. lia. }
    now exists q.
  - intros i _. specialize (Hfacts i). cbv zeta in *. lia.
Qed.

Lemma seg_mean_iou_np_range_witness :
  let label_hmask := mk_ndarray [2; 2; 2]%nat [1; 0; 0; 0; 0; 1; 1; 1] in
  let pred_imask := mk_ndarray [2; 2]%nat [0; 0; 1; 1] in
  ∃ q, seg_mean_iou_np label_hmask pred_imask = Ok (Fin q)
       ∧ (0 <= q)%Q ∧ (q <= 1)%Q.
Proof.
  intros label_hmask pred_imask.
  assert (H01 : is_01 (data label_hmask))
    by (repeat constructor; (now left) || (now right)).
  exact (seg_mean_iou_np_range label_hmask pred_imask H01 eq_refl eq_refl eq_refl).
Defined.

(** ** Mean accuracy: the two encodings of the prediction *)

Lemma np_truthy_indicator (m : list Z) (k : Z) :
  np_truthy (map (fun v => if v =? k then 1 else 0) m) = np_eq_scalar m k.
Proof.
  unfold np_truthy, np_eq_scalar. rewrite map_map. apply map_ext.
  intros v. now destruct (v =? k).
Qed.

(** X10. The index-mask variant and the one-hot variant of the mean accuracy
    agree: on a prediction given as an index mask, [segm_mean_accuracy]
    returns what [segm_mean_accuracy_hmasks] returns on its one-hot
    encoding. *)
Theorem segm_mean_accuracy_encodings (label_hmask pred_hmask pred_imask : ndarray) :
  shape pred_hmask = shape label_hmask →
  one_hot_of pred_hmask pred_imask →
  segm_mean_accuracy label_hmask pred_imask
  = segm_mean_accuracy_hmasks label_hmask pred_hmask.
Proof.
  intros Hsh (Hnd & Hnd2 & Hsh2 & Hpl).
  assert (Hndl : ndim label_hmask = 3%nat) by (unfold ndim in *; now rewrite <- Hsh).
  rewrite segm_mean_accuracy_loop, segm_mean_accuracy_hmasks_loop;
    try done; [|now rewrite <- Hsh].
  f_equal. apply spec_class_mean_ext. intros i Hi.
  repeat split.
  rewrite Hpl by (unfold shape0 in *; now rewrite Hsh).
  now rewrite np_truthy_indicator.
Qed.

Lemma segm_mean_accuracy_encodings_witness :
  let label_hmask := mk_ndarray [2; 2; 2]%nat [1; 0; 0; 0; 0; 1; 1; 1] in
  let pred_hmask := mk_ndarray [2; 2; 2]%nat [1; 1; 0; 0; 0; 0; 1; 1] in
  let pred_imask := mk_ndarray [2; 2]%nat [0; 0; 1; 1] in
  segm_mean_accuracy label_hmask pred_imask
  = segm_mean_accuracy_hmasks label_hmask pred_hmask.
Proof.
  intros label_hmask pred_hmask pred_imask.
  apply (segm_mean_accuracy_encodings label_hmask pred_hmask pred_imask);
    [reflexivity|].
  repeat split. intros i Hi.
  destruct i as [|[|i]]; [reflexivity | reflexivity |].
  exfalso. cbv in Hi. lia.
Defined.

(** ** Mean IoU against mean accuracy *)

Lemma Qdiv_le_mono (a b k m : Q) :
  (0 <= a)%Q → (a <= b)%Q → (0 < k)%Q → (k <= m)%Q → (a / m <= b / k)%Q.
Proof.
  intros Ha Hab Hk Hkm.
  apply Qle_shift_div_r; [lra|].
  assert (Hc : (0 <= b / k)%Q) by (apply Qle_shift_div_l; lra).
  assert (E : (b / k * k == b)%Q) by (field; lra).
  generalize dependent (b / k)%Q. intros c Hc E. nra.
Qed.

Lemma ratio_le (a b c d : Z) :
  0 < b → 0 < d → a * d ≤ c * b →
  (inject_Z a / inject_Z b <= inject_Z c / inject_Z d)%Q.
Proof.
  intros Hb Hd H.
  assert (Hbq : (0 < inject_Z b)%Q)
    by (change 0%Q with (inject_Z 0); now rewrite <- Zlt_Qlt).
  assert (Hdq : (0 < inject_Z d)%Q)
    by (change 0%Q with (inject_Z 0); now rewrite <- Zlt_Qlt).
  assert (Hq : (inject_Z a * inject_Z d <= inject_Z c * inject_Z b)%Q)
    by (rewrite <- !inject_Z_mult, <- Zle_Qle; exact H).
  apply Qle_shift_div_r; [done|].
  assert (E : (inject_Z c / inject_Z d * inject_Z b
               == inject_Z c * inject_Z b / inject_Z d)%Q) by (field; lra).
  rewrite E. apply Qle_shift_div_l; done.
Qed.

Lemma Qsum_cons (x : Q) (l : list Q) : Qsum (x :: l) = (x + Qsum l)%Q.
Proof. reflexivity. Qed.

Lemma class_sums_le (cA cI : nat → bool) (numA denA numI denI : nat → Z)
    (l : list nat) :
  (∀ i, i ∈ l → cA i = true →
     cI i = true ∧ 0 < denA i ∧ 0 < denI i ∧ 0 ≤ numI i
     ∧ numI i * denA i ≤ numA i * denI i) →
  (∀ i, i ∈ l → cI i = true → cA i = false → numI i = 0) →
  (0 <= Qsum (map (fun i => inject_Z (numI i) / inject_Z (denI i)) (List.filter cI l)))%Q
  ∧ (Qsum (map (fun i => inject_Z (numI i) / inject_Z (denI i)) (List.filter cI l))
     <= Qsum (map (fun i => inject_Z (numA i) / inject_Z (denA i)) (List.filter cA l)))%Q
  ∧ (length (List.filter cA l) ≤ length (List.filter cI l))%nat.
Proof.
  induction l as [|x l IH]; intros HA HI.
  - simpl. repeat split; (apply Qle_refl || lia).
  - destruct IH as (IH0 & IH1 & IH2).
    { intros i Hi. apply HA. now right. }
    { intros i Hi. apply HI. now right. }
    simpl List.filter.
    destruct (cA x) eqn:EA.
    + destruct (HA x ltac:(left) EA) as (-> & HdA & HdI & Hn & Hle).
      pose proof (ratio_le _ _ _ _ HdI HdA Hle) as Hr.
      assert (H0 : (0 <= inject_Z (numI x) / inject_Z (denI x))%Q).
      { apply Qle_shift_div_l.
        - change 0%Q with (inject_Z 0). now rewrite <- Zlt_Qlt.
        - rewrite Qmult_0_l. change 0%Q with (inject_Z 0). now rewrite <- Zle_Qle. }
      cbn [map length]. rewrite !Qsum_cons.
      split; [lra|]. split; [lra | lia].
    + destruct (cI x) eqn:EI.
      * cbn [map length]. rewrite !Qsum_cons.
        rewrite (HI x ltac:(left) EI EA).
        assert (E0 : (inject_Z 0 / inject_Z (denI x) == 0)%Q)
          by (unfold Qdiv; apply Qmult_0_l).
        rewrite E0. split; [lra|]. split; [lra | lia].
      * repeat split; try done.
Qed.

Lemma spec_class_mean_le (n : nat) (cA cI : nat → bool)
    (numA denA numI denI : nat → Z) :
  (∀ i, (i < n)%nat → cA i = true →
     cI i = true ∧ 0 < denA i ∧ 0 < denI i ∧ 0 ≤ numI i
     ∧ numI i * denA i ≤ numA i * denI i) →
  (∀ i, (i < n)%nat → cI i = true → cA i = false → numI i = 0) →
  ∃ qi qa, spec_class_mean n cI numI denI = Fin qi
           ∧ spec_class_mean n cA numA denA = Fin qa
           ∧ (qi <= qa)%Q.
Proof.
  intros HA HI.
  destruct (class_sums_le cA cI numA denA numI denI (seq 0 n)) as (H0 & H1 & H2).
  { intros i Hi. apply HA. apply elem_of_seq in Hi. lia. }
  { intros i Hi. apply HI. apply elem_of_seq in Hi. lia. }
  unfold spec_class_mean.
  destruct (List.filter cI (seq 0 n)) as [|ci csi] eqn:EI,
           (List.filter cA (seq 0 n)) as [|ca csa] eqn:EA.
  - exists 1%Q, 1%Q. repeat split; apply Qle_refl.
  - simpl in H2. lia.
  - eexists _, 1%Q. split; [reflexivity|]. split; [reflexivity|].
    rewrite Qred_correct.
    apply Qle_shift_div_r.
    { change 0%Q with (inject_Z 0). rewrite <- Zlt_Qlt. simpl. lia. }
    simpl in H1. rewrite Qmult_1_l.
    apply Qle_trans with 0%Q; [exact H1|].
    change 0%Q with (inject_Z 0). rewrite <- Zle_Qle. lia.
  - eexists _, _. split; [reflexivity|]. split; [reflexivity|].
    rewrite !Qred_correct.
    apply Qdiv_le_mono; try done.
    rewrite <- Zle_Qle. lia.
Qed.

(** X13. With label planes of zeros and ones, the mean IoU never exceeds the
    mean accuracy of the same masks: [seg_mean_iou_np] returns at most what
    [segm_mean_accuracy] returns. *)
Theorem seg_mean_iou_np_le_accuracy (label_hmask pred_imask : ndarray) :
  is_01 (data label_hmask) →
  ndim label_hmask = 3%nat → ndim pred_imask = 2%nat →
  shape pred_imask = tail (shape label_hmask) →
  ∃ qi qa, seg_mean_iou_np label_hmask pred_imask = Ok (Fin qi)
           ∧ segm_mean_accuracy label_hmask pred_imask = Ok (Fin qa)
           ∧ (qi <= qa)%Q.
Proof.
  intros H01 Hnd Hnd2 Hsh.
  assert (Hfacts : ∀ i,
    let u_i := np_sum (np_plane label_hmask i) in
    let u_ji_sj := np_sum_bool (np_eq_scalar (data pred_imask) (Z.of_nat i)) in
    let u_ii := np_sum_bool (np_logical_and (np_eq_scalar (data pred_imask) (Z.of_nat i))
                                            (np_truthy (np_plane label_hmask i))) in
    0 ≤ u_ii ∧ u_ii ≤ u_i ∧ u_ii ≤ u_ji_sj).
  { intros i. cbv zeta. repeat split.
    - apply np_sum_bool_nonneg.
    - rewrite <- (np_sum_bool_truthy (np_plane label_hmask i))
        by now apply is_01_plane.
      apply np_sum_bool_and_le_r.
    - apply np_sum_bool_and_le_l. }
  rewrite seg_mean_iou_np_loop, segm_mean_accuracy_loop; try done.
  - match goal with
    | |- ∃ qi qa, Ok (spec_class_mean ?n ?cI ?numI ?denI) = _
                  ∧ Ok (spec_class_mean _ ?cA ?numA ?denA) = _ ∧ _ =>
        destruct (spec_class_mean_le n cA cI numA denA numI denI)
          as (qi & qa & -> & -> & Hle)
    end.
    + intros i _ Hc. apply negb_true_iff, Z.eqb_neq in Hc.
      specialize (Hfacts i). cbv zeta in Hfacts.
      repeat split; try lia. nia.
    + intros i _ _ Hc. apply negb_false_iff, Z.eqb_eq in Hc.
      specialize (Hfacts i). cbv zeta in Hfacts. lia.
    + now exists qi, qa.
  - intros i _. specialize (Hfacts i). cbv zeta in *. lia.
Qed.

Lemma seg_mean_iou_np_le_accuracy_witness :
  let label_hmask := mk_ndarray [2; 2; 2]%nat [1; 0; 0; 0; 0; 1; 1; 1] in
  let pred_imask := mk_ndarray [2; 2]%nat [0; 0; 1; 1] in
  ∃ qi qa, seg_mean_iou_np label_hmask pred_imask = Ok (Fin qi)
           ∧ segm_mean_accuracy label_hmask pred_imask = Ok (Fin qa)
           ∧ (qi <= qa)%Q.
Proof.
  intros label_hmask pred_imask.
  assert (H01 : is_01 (data label_hmask))
    by (repeat constructor; (now left) || (now right)).
  exact (seg_mean_iou_np_le_accuracy label_hmask pred_imask H01 eq_refl eq_refl eq_refl).
Defined.

(** ** Frequency weighted IoU *)

Lemma fw_loop_class_loop (skip : nat → bool) (num den : nat → Z) (l : list nat) :
  ∀ (t : bool) (k : Z) (a : npfloat),
  fw_loop skip num den l (t, a)
  = (t || (0 <? count_where (fun i => negb (skip i)) l),
     (class_loop skip num den l (k, a)).2).
Proof.
  unfold fw_loop, class_loop, count_where.
  induction l as [|i l IH]; intros t k a; simpl.
  - now rewrite orb_false_r.
  - destruct (skip i) eqn:Hs; simpl.
    + apply IH.
    + rewrite (IH true (k + 1)). f_equal.
      destruct t; [done|]. symmetry. apply Z.ltb_lt. lia.
Qed.

Lemma fw_loop_div (skip : nat → bool) (num den : nat → Z) (n : nat) (size : Z) :
  (∀ i, (i < n)%nat → skip i = false → den i ≠ 0) →
  size ≠ 0 →
  (let '(touched, acc) := fw_loop skip num den (seq 0 n) (false, Fin 0) in
   fw_div touched acc size)
  = Ok (spec_class_sum n (fun i => negb (skip i)) num den size).
Proof.
  intros Hden Hsize.
  rewrite (fw_loop_class_loop skip num den (seq 0 n) false 0).
  destruct (class_loop_spec skip num den (seq 0 n)) with (k := 0) (q := 0%Q)
    as (q' & -> & Hq').
  { intros i Hi. apply Hden. apply elem_of_seq in Hi. lia. }
  cbn [snd]. unfold fw_div, py_truediv, spec_class_sum.
  apply Z.eqb_neq in Hsize as Hs. rewrite Hs.
  assert (E : np_truediv (Fin q') (float_of_int size)
              = Fin (Qred (Qsum (map (fun i => inject_Z (num i) / inject_Z (den i))%Q
                                     (List.filter (fun i => negb (skip i)) (seq 0 n)))
                           / inject_Z size))).
  { rewrite np_truediv_fin_int by done. f_equal. apply Qred_complete.
    rewrite Hq'. now rewrite Qplus_0_l. }
  rewrite E. now destruct (_ || _).
Qed.

Lemma fw_loop_all_skipped (skip : nat → bool) (num den : nat → Z) (l : list nat)
    (st : bool * npfloat) :
  (∀ i, i ∈ l → skip i = true) → fw_loop skip num den l st = st.
Proof.
  unfold fw_loop. revert st.
  induction l as [|i l IH]; intros [t a] H; simpl; [done|].
  rewrite (H i) by left. apply IH. intros j Hj. apply H. now right.
Qed.

Lemma segm_fw_iou_loop (label pred : ndarray) :
  ndim label = 3%nat → ndim pred = 2%nat → shape pred = tail (shape label) →
  (∀ i, (i < shape0 label)%nat →
     let u_i := np_sum (np_plane label i) in
     let u_ji_sj := np_sum_bool (np_eq_scalar (data pred) (Z.of_nat i)) in
     let u_ii := np_sum_bool (np_logical_and (np_eq_scalar (data pred) (Z.of_nat i))
                                             (np_truthy (np_plane label i))) in
     u_i + u_ji_sj ≠ 0 → u_i + u_ji_sj - u_ii ≠ 0) →
  np_size pred ≠ 0 →
  segm_fw_iou label pred
  = Ok (spec_class_sum (shape0 label)
          (fun i => negb (np_sum (np_plane label i)
                          + np_sum_bool (np_eq_scalar (data pred) (Z.of_nat i)) =? 0))
          (fun i => np_sum (np_plane label i)
                    * np_sum_bool (np_logical_and (np_eq_scalar (data pred) (Z.of_nat i))
                                                  (np_truthy (np_plane label i))))
          (fun i => np_sum (np_plane label i)
                    + np_sum_bool (np_eq_scalar (data pred) (Z.of_nat i))
                    - np_sum_bool (np_logical_and (np_eq_scalar (data pred) (Z.of_nat i))
                                                  (np_truthy (np_plane label i))))
          (np_size pred)).
Proof.
  intros Hl Hp Hsh Hden Hsize. unfold segm_fw_iou, shape_eqb.
  rewrite py_assert_true by now apply Nat.eqb_eq.
  rewrite py_assert_true by now apply Nat.eqb_eq.
  rewrite py_assert_true by now apply bool_decide_eq_true_2.
  rewrite <- fw_loop_div; [| |done].
  - unfold fw_loop. cbv beta zeta.
    now destruct (fold_left _ _ _) as [touched acc].
  - intros i Hi Hs. apply Hden; [done|]. now apply Z.eqb_neq.
Qed.

Lemma segm_fw_iou_hmasks_loop (label pred : ndarray) :
  shape pred = shape label → ndim pred = 3%nat →
  (∀ i, (i < shape0 label)%nat →
     let u_i := np_sum (np_plane label i) in
     let u_ji_sj := np_sum (np_plane pred i) in
     let u_ii := np_sum_bool (np_logical_and (np_truthy (np_plane pred i))
                                             (np_truthy (np_plane label i))) in
     u_i + u_ji_sj ≠ 0 → u_i + u_ji_sj - u_ii ≠ 0) →
  shape0 pred ≠ 0%nat → plane_size pred ≠ 0%nat →
  segm_fw_iou_hmasks label pred
  = Done (Ok (spec_class_sum (shape0 label)
          (fun i => negb (np_sum (np_plane label i) + np_sum (np_plane pred i) =? 0))
          (fun i => np_sum (np_plane label i)
                    * np_sum_bool (np_logical_and (np_truthy (np_plane pred i))
                                                  (np_truthy (np_plane label i))))
          (fun i => np_sum (np_plane label i) + np_sum (np_plane pred i)
                    - np_sum_bool (np_logical_and (np_truthy (np_plane pred i))
                                                  (np_truthy (np_plane label i))))
          (Z.of_nat (plane_size pred)))).
Proof.
  intros Hsh Hp Hden Hn Hsize. unfold segm_fw_iou_hmasks, shape_eqb.
  rewrite py_assert_true by now apply bool_decide_eq_true_2.
  apply Nat.eqb_eq in Hp as ->. cbn [py_assert].
  apply Nat.eqb_neq in Hn as ->.
  rewrite <- fw_loop_div; [| |lia].
  - unfold fw_loop. cbv beta zeta.
    now destruct (fold_left _ _ _) as [touched acc].
  - intros i Hi Hs. apply Hden; [done|]. now apply Z.eqb_neq.
Qed.

Lemma plane_empty (a : ndarray) (i : nat) : plane_size a = 0%nat → np_plane a i = [].
Proof. intros H. unfold np_plane. now rewrite H. Qed.

(** X14. On masks that have classes but no pixel, both frequency weighted
    metrics raise [ZeroDivisionError]: every class is skipped, and the
    accumulator, still the Python float [0.0], is divided by the pixel
    count 0. *)
Theorem segm_fw_iou_empty (label_hmask pred_hmask pred_imask : ndarray) :
  ndim label_hmask = 3%nat →
  shape0 label_hmask ≠ 0%nat →
  plane_size label_hmask = 0%nat →
  shape pred_hmask = shape label_hmask →
  ndim pred_imask = 2%nat →
  shape pred_imask = tail (shape label_hmask) →
  wf_ndarray pred_imask →
  segm_fw_iou_hmasks label_hmask pred_hmask = Done (Raise ZeroDivisionError)
  ∧ segm_fw_iou label_hmask pred_imask = Raise ZeroDivisionError.
Proof.
  intros Hnd Hn Hps Hsh Hnd2 Hsh2 Hwf.
  assert (Hps' : plane_size pred_hmask = 0%nat)
    by (unfold plane_size in *; now rewrite Hsh).
  assert (Hsz : size_of (shape pred_imask) = 0%nat)
    by (rewrite Hsh2; exact Hps).
  assert (Hdata : data pred_imask = []).
  { unfold wf_ndarray in Hwf. rewrite Hsz in Hwf. now destruct (data pred_imask). }
  split.
  - unfold segm_fw_iou_hmasks, shape_eqb.
    rewrite py_assert_true by now apply bool_decide_eq_true_2.
    assert (Hnd3 : ndim pred_hmask = 3%nat) by (unfold ndim in *; now rewrite Hsh).
    apply Nat.eqb_eq in Hnd3 as ->. cbn [py_assert].
    assert (Hn' : shape0 pred_hmask ≠ 0%nat) by (unfold shape0 in *; now rewrite Hsh).
    apply Nat.eqb_neq in Hn' as ->.
    pose proof (fw_loop_all_skipped
      (fun i => np_sum (np_plane label_hmask i) + np_sum (np_plane pred_hmask i) =? 0)
      (fun i => np_sum (np_plane label_hmask i)
                * np_sum_bool (np_logical_and (np_truthy (np_plane pred_hmask i))
                                              (np_truthy (np_plane label_hmask i))))
      (fun i => np_sum (np_plane label_hmask i) + np_sum (np_plane pred_hmask i)
                - np_sum_bool (np_logical_and (np_truthy (np_plane pred_hmask i))
                                              (np_truthy (np_plane label_hmask i))))
      (seq 0 (shape0 label_hmask)) (false, Fin 0)) as E.
    unfold fw_loop in E. cbv beta zeta. rewrite E.
    + now rewrite Hps'.
    + intros i _. now rewrite !plane_empty.
  - unfold segm_fw_iou, shape_eqb.
    rewrite py_assert_true by now apply Nat.eqb_eq.
    rewrite py_assert_true by now apply Nat.eqb_eq.
    rewrite py_assert_true by now apply bool_decide_eq_true_2.
    pose proof (fw_loop_all_skipped
      (fun i => np_sum (np_plane label_hmask i)
                + np_sum_bool (np_eq_scalar (data pred_imask) (Z.of_nat i)) =? 0)
      (fun i => np_sum (np_plane label_hmask i)
                * np_sum_bool (np_logical_and (np_eq_scalar (data pred_imask) (Z.of_nat i))
                                              (np_truthy (np_plane label_hmask i))))
      (fun i => np_sum (np_plane label_hmask i)
                + np_sum_bool (np_eq_scalar (data pred_imask) (Z.of_nat i))
                - np_sum_bool (np_logical_and (np_eq_scalar (data pred_imask) (Z.of_nat i))
                                              (np_truthy (np_plane label_hmask i))))
      (seq 0 (shape0 label_hmask)) (false, Fin 0)) as E.
    unfold fw_loop in E. cbv beta zeta. rewrite E.
    + unfold np_size. now rewrite Hsz.
    + intros i _. now rewrite plane_empty, Hdata.
Qed.

Lemma segm_fw_iou_empty_witness :
  let label_hmask := mk_ndarray [2; 0; 3]%nat [] in
  let pred_imask := mk_ndarray [0; 3]%nat [] in
  segm_fw_iou_hmasks label_hmask label_hmask = Done (Raise ZeroDivisionError)
  ∧ segm_fw_iou label_hmask pred_imask = Raise ZeroDivisionError.
Proof.
  intros label_hmask pred_imask.
  apply (segm_fw_iou_empty label_hmask label_hmask pred_imask);
    (reflexivity || (intros H; discriminate H)).
Defined.

(** X15. On a label without classes (shape (0, h, w)) the two frequency
    weighted metrics part: [segm_fw_iou_hmasks] raises [IndexError] at
    [pred_hmask[0]], while [segm_fw_iou] returns 0.0, or raises
    [ZeroDivisionError] when the prediction has no pixel. *)
Theorem segm_fw_iou_no_class (label_hmask pred_hmask pred_imask : ndarray) :
  ndim label_hmask = 3%nat →
  shape0 label_hmask = 0%nat →
  shape pred_hmask = shape label_hmask →
  ndim pred_imask = 2%nat →
  shape pred_imask = tail (shape label_hmask) →
  segm_fw_iou_hmasks label_hmask pred_hmask = RaiseIndexError
  ∧ segm_fw_iou label_hmask pred_imask
    = if np_size pred_imask =? 0 then Raise ZeroDivisionError else Ok (Fin 0).
Proof.
  intros Hnd Hn Hsh Hnd2 Hsh2. split.
  - unfold segm_fw_iou_hmasks, shape_eqb.
    rewrite py_assert_true by now apply bool_decide_eq_true_2.
    assert (Hnd3 : ndim pred_hmask = 3%nat) by (unfold ndim in *; now rewrite Hsh).
    apply Nat.eqb_eq in Hnd3 as ->. cbn [py_assert].
    assert (Hn' : shape0 pred_hmask = 0%nat) by (unfold shape0 in *; now rewrite Hsh).
    rewrite Hn, Hn'. reflexivity.
  - unfold segm_fw_iou, shape_eqb.
    rewrite py_assert_true by now apply Nat.eqb_eq.
    rewrite py_assert_true by now apply Nat.eqb_eq.
    rewrite py_assert_true by now apply bool_decide_eq_true_2.
    rewrite Hn. cbn [seq fold_left]. unfold fw_div, py_truediv.
    destruct (np_size pred_imask =? 0) eqn:E; [done|].
    apply Z.eqb_neq in E. f_equal.
    rewrite np_truediv_fin_int by done. f_equal; apply Qred_zero_div.
Qed.

Lemma segm_fw_iou_no_class_witness :
  let label_hmask := mk_ndarray [0; 2; 2]%nat [] in
  let pred_imask := mk_ndarray [2; 2]%nat [0; 1; 1; 0] in
  segm_fw_iou_hmasks label_hmask label_hmask = RaiseIndexError
  ∧ segm_fw_iou label_hmask pred_imask = Ok (Fin 0).
Proof.
  intros label_hmask pred_imask.
  exact (segm_fw_iou_no_class label_hmask label_hmask pred_imask
           eq_refl eq_refl eq_refl eq_refl eq_refl).
Defined.

Lemma fold_left_ext_in {A B : Type} (f g : A → B → A) (l : list B) :
  (∀ x, x ∈ l → ∀ a, f a x = g a x) →
  ∀ a, fold_left f l a = fold_left g l a.
Proof.
  induction l as [|x l IH]; intros H a; simpl; [done|].
  rewrite (H x) by left. apply IH. intros y Hy. apply H. now right.
Qed.

(** X16. The two frequency weighted metrics agree on the two encodings of a
    prediction: for a label with at least one class, [segm_fw_iou_hmasks]
    on the one-hot encoding of an index mask ends as [segm_fw_iou] does on
    the index mask, with the same value or the same exception. *)
Theorem segm_fw_iou_encodings (label_hmask pred_hmask pred_imask : ndarray) :
  shape pred_hmask = shape label_hmask →
  one_hot_of pred_hmask pred_imask →
  shape0 label_hmask ≠ 0%nat →
  segm_fw_iou_hmasks label_hmask pred_hmask
  = Done (segm_fw_iou label_hmask pred_imask).
Proof.
  intros Hsh (Hnd & Hnd2 & Hsh2 & Hpl) Hn.
  assert (Hndl : ndim label_hmask = 3%nat) by (unfold ndim in *; now rewrite <- Hsh).
  assert (Hn' : shape0 pred_hmask ≠ 0%nat) by (unfold shape0 in *; now rewrite Hsh).
  unfold segm_fw_iou_hmasks, segm_fw_iou, shape_eqb.
  rewrite py_assert_true by now apply bool_decide_eq_true_2.
  apply Nat.eqb_eq in Hnd as ->. cbn [py_assert].
  rewrite py_assert_true by now apply Nat.eqb_eq.
  rewrite py_assert_true by now apply Nat.eqb_eq.
  rewrite py_assert_true by (apply bool_decide_eq_true_2; now rewrite <- Hsh).
  apply Nat.eqb_neq in Hn' as ->.
  assert (Hsize : Z.of_nat (plane_size pred_hmask) = np_size pred_imask)
    by (unfold plane_size, np_size; now rewrite Hsh2).
  rewrite Hsize.
  match goal with
  | |- (let '(_, _) := fold_left ?f _ _ in _) = Done (let '(_, _) := fold_left ?g _ _ in _) =>
      rewrite (fold_left_ext_in f g)
  end.
  - now destruct (fold_left _ _ _) as [touched acc].
  - intros i Hi [touched acc]. apply elem_of_seq in Hi.
    rewrite Hpl by (unfold shape0 in *; rewrite Hsh; lia).
    now rewrite np_sum_indicator, np_truthy_indicator.
Qed.

Lemma segm_fw_iou_encodings_witness :
  let label_hmask := mk_ndarray [2; 2; 2]%nat [1; 0; 0; 0; 0; 1; 1; 1] in
  let pred_hmask := mk_ndarray [2; 2; 2]%nat [1; 1; 0; 0; 0; 0; 1; 1] in
  let pred_imask := mk_ndarray [2; 2]%nat [0; 0; 1; 1] in
  segm_fw_iou_hmasks label_hmask pred_hmask
  = Done (segm_fw_iou label_hmask pred_imask).
Proof.
  intros label_hmask pred_hmask pred_imask.
  apply (segm_fw_iou_encodings label_hmask pred_hmask pred_imask);
    [reflexivity | | intros H; discriminate H].
  repeat split. intros i Hi.
  destruct i as [|[|i]]; [reflexivity | reflexivity |].
  exfalso. cbv in Hi. lia.
Defined.

(** *** Counting the pixels of every class *)

Lemma np_sum_map_add {A : Type} (f g : A → Z) (l : list A) :
  np_sum (map (fun x => f x + g x) l) = np_sum (map f l) + np_sum (map g l).
Proof. induction l as [|x l IH]; simpl; lia. Qed.

Lemma np_sum_map_zero {A : Type} (l : list A) : np_sum (map (fun _ => 0) l) = 0.
Proof. induction l as [|x l IH]; simpl; lia. Qed.

Lemma np_sum_map_ext_in {A : Type} (f g : A → Z) (l : list A) :
  (∀ x, x ∈ l → f x = g x) → np_sum (map f l) = np_sum (map g l).
Proof.
  induction l as [|x l IH]; intros H; simpl; [done|].
  rewrite (H x) by left. rewrite IH; [done|]. intros y Hy. apply H. now right.
Qed.

Lemma indicator_sum_seq (v : Z) (n s : nat) :
  np_sum (map (fun i => if v =? Z.of_nat i then 1 else 0) (seq s n))
  = if (Z.of_nat s <=? v) && (v <? Z.of_nat (s + n)) then 1 else 0.
Proof.
  revert s. induction n as [|n IH]; intros s; simpl.
  - bool_cases.
  - rewrite IH. replace (Z.of_nat (S s + n)) with (Z.of_nat (s + S n)) by lia.
    bool_cases.
Qed.

(** Over the classes [0 .. n-1], the pixel counts of an index mask add up to
    the number of its pixels that have one of these classes. *)
Lemma class_counts_sum (m : list Z) (n : nat) :
  np_sum (map (fun i => np_sum_bool (np_eq_scalar m (Z.of_nat i))) (seq 0 n))
  = count_where (fun v => (0 <=? v) && (v <? Z.of_nat n)) m.
Proof.
  induction m as [|v m IH].
  - apply np_sum_map_zero.
  - change (fun i => np_sum_bool (np_eq_scalar (v :: m) (Z.of_nat i)))
      with (fun i => np_sum_bool ((v =? Z.of_nat i) :: np_eq_scalar m (Z.of_nat i))).
    rewrite (np_sum_map_ext_in _
      (fun i => (if v =? Z.of_nat i then 1 else 0)
                + np_sum_bool (np_eq_scalar m (Z.of_nat i))))
      by (intros i _; apply np_sum_bool_cons).
    rewrite np_sum_map_add, IH, indicator_sum_seq.
    unfold count_where. simpl List.filter.
    destruct ((0 <=? v) && (v <? Z.of_nat n)) eqn:E; simpl length.
    + change (Z.of_nat 0) with 0. rewrite Nat.add_0_l, E. lia.
    + change (Z.of_nat 0) with 0. rewrite Nat.add_0_l, E. lia.
Qed.

Lemma Qsum_filter_le_np_sum (counted : nat → bool) (f : nat → Q) (g : nat → Z)
    (l : list nat) :
  (∀ i, i ∈ l → 0 ≤ g i) →
  (∀ i, i ∈ l → counted i = true → (0 <= f i)%Q ∧ (f i <= inject_Z (g i))%Q) →
  (0 <= Qsum (map f (List.filter counted l)))%Q
  ∧ (Qsum (map f (List.filter counted l)) <= inject_Z (np_sum (map g l)))%Q.
Proof.
  induction l as [|x l IH]; intros Hg Hf.
  - simpl. split; apply Qle_refl.
  - destruct IH as [IH0 IH1].
    { intros i Hi. apply Hg. now right. }
    { intros i Hi. apply Hf. now right. }
    assert (Hgx : (0 <= inject_Z (g x))%Q).
    { change 0%Q with (inject_Z 0). rewrite <- Zle_Qle. apply Hg. left. }
    cbn [map np_sum foldr]. fold (np_sum (map g l)).
    rewrite inject_Z_plus. simpl List.filter.
    destruct (counted x) eqn:Ec.
    + destruct (Hf x ltac:(left) Ec) as [H0 H1].
      cbn [map]. rewrite Qsum_cons. split; lra.
    + split; lra.
Qed.

Lemma Qsum_filter_eq_np_sum (counted : nat → bool) (f : nat → Q) (g : nat → Z)
    (l : list nat) :
  (∀ i, i ∈ l → counted i = true → (f i == inject_Z (g i))%Q) →
  (∀ i, i ∈ l → counted i = false → g i = 0) →
  (Qsum (map f (List.filter counted l)) == inject_Z (np_sum (map g l)))%Q.
Proof.
  induction l as [|x l IH]; intros Hf Hg.
  - reflexivity.
  - cbn [map np_sum foldr]. fold (np_sum (map g l)).
    rewrite inject_Z_plus. simpl List.filter.
    destruct (counted x) eqn:Ec.
    + cbn [map]. rewrite Qsum_cons, (Hf x) by (done || left).
      rewrite IH; [reflexivity | |].
      * intros i Hi. apply Hf. now right.
      * intros i Hi. apply Hg. now right.
    + rewrite (Hg x) by (done || left).
      rewrite IH; [ring | |].
      * intros i Hi. apply Hf. now right.
      * intros i Hi. apply Hg. now right.
Qed.

Lemma ratio_le_int (a b c : Z) :
  0 ≤ a → 0 < b → a ≤ c * b →
  (0 <= inject_Z a / inject_Z b)%Q ∧ (inject_Z a / inject_Z b <= inject_Z c)%Q.
Proof.
  intros Ha Hb Hc.
  assert (Hbq : (0 < inject_Z b)%Q)
    by (change 0%Q with (inject_Z 0); now rewrite <- Zlt_Qlt).
  split.
  - apply Qle_shift_div_l; [done|]. rewrite Qmult_0_l.
    change 0%Q with (inject_Z 0). now rewrite <- Zle_Qle.
  - apply Qle_shift_div_r; [done|].
    now rewrite <- inject_Z_mult, <- Zle_Qle.
Qed.

(** What the loop of [segm_fw_iou] sees of class [i] when the label is the
    one-hot encoding of [label_imask]. *)
Lemma one_hot_class_facts (label_hmask label_imask pred_imask : ndarray) (i : nat) :
  one_hot_of label_hmask label_imask →
  (i < shape0 label_hmask)%nat →
  let u_i := np_sum (np_plane label_hmask i) in
  let u_ji_sj := np_sum_bool (np_eq_scalar (data pred_imask) (Z.of_nat i)) in
  let u_ii := np_sum_bool (np_logical_and (np_eq_scalar (data pred_imask) (Z.of_nat i))
                                          (np_truthy (np_plane label_hmask i))) in
  u_i = np_sum_bool (np_eq_scalar (data label_imask) (Z.of_nat i))
  ∧ 0 ≤ u_ii ∧ u_ii ≤ u_i ∧ u_ii ≤ u_ji_sj.
Proof.
  intros (_ & _ & _ & Hpl) Hi. cbv zeta.
  rewrite Hpl by done. rewrite np_sum_indicator, np_truthy_indicator.
  repeat split.
  - apply np_sum_bool_nonneg.
  - apply np_sum_bool_and_le_r.
  - apply np_sum_bool_and_le_l.
Qed.

(** X17. When the label is the one-hot encoding of an index mask,
    [segm_fw_iou] returns a number between 0 and 1, whatever the
    prediction, provided the masks have a pixel. *)
Theorem segm_fw_iou_range (label_hmask label_imask pred_imask : ndarray) :
  one_hot_of label_hmask label_imask →
  wf_ndarray label_imask →
  ndim pred_imask = 2%nat →
  shape pred_imask = tail (shape label_hmask) →
  np_size pred_imask ≠ 0 →
  ∃ q, segm_fw_iou label_hmask pred_imask = Ok (Fin q) ∧ (0 <= q)%Q ∧ (q <= 1)%Q.
Proof.
  intros Hoh Hwf Hnd2 Hsh Hsize.
  pose proof Hoh as (Hnd & Hndl & Hshl & Hpl).
  pose proof (fun i Hi => one_hot_class_facts label_hmask label_imask pred_imask i Hoh Hi)
    as Hfacts. cbv zeta in Hfacts.
  rewrite segm_fw_iou_loop; try done.
  - unfold spec_class_sum. eexists. split; [reflexivity|].
    rewrite Qred_correct.
    match goal with
    | |- context [Qsum (map ?f (List.filter ?c ?l))] =>
        destruct (Qsum_filter_le_np_sum c f
                    (fun i => np_sum (np_plane label_hmask i)) l) as [H0 H1]
    end.
    { intros i Hi. apply elem_of_seq in Hi.
      destruct (Hfacts i) as (_ & ? & ? & _); lia. }
    { intros i Hi Hc. apply elem_of_seq in Hi.
      apply negb_true_iff, Z.eqb_neq in Hc.
      destruct (Hfacts i) as (_ & ? & ? & ?); [lia|].
      apply ratio_le_int; nia. }
    assert (Htot : np_sum (map (fun i => np_sum (np_plane label_hmask i))
                               (seq 0 (shape0 label_hmask)))
                   ≤ np_size pred_imask).
    { rewrite (np_sum_map_ext_in _
        (fun i => np_sum_bool (np_eq_scalar (data label_imask) (Z.of_nat i)))).
      - rewrite class_counts_sum.
        etransitivity; [apply count_where_le_length|].
        unfold np_size. rewrite Hsh, <- Hshl. unfold wf_ndarray in Hwf. lia.
      - intros i Hi. apply elem_of_seq in Hi. apply Hfacts. lia. }
    rewrite Zle_Qle in Htot.
    assert (Hpos : (0 < inject_Z (np_size pred_imask))%Q).
    { change 0%Q with (inject_Z 0). rewrite <- Zlt_Qlt.
      unfold np_size in *. lia. }
    split.
    + apply Qle_shift_div_l; [done|]. now rewrite Qmult_0_l.
    + apply Qle_shift_div_r; [done|]. rewrite Qmult_1_l.
      eapply Qle_trans; [exact H1 | exact Htot].
  - intros i Hi. cbv zeta. destruct (Hfacts i Hi) as (_ & ? & ? & ?). lia.
Qed.

Lemma segm_fw_iou_range_witness :
  let label_hmask := mk_ndarray [2; 2; 2]%nat [1; 1; 0; 0; 0; 0; 1; 1] in
  let label_imask := mk_ndarray [2; 2]%nat [0; 0; 1; 1] in
  let pred_imask := mk_ndarray [2; 2]%nat [0; 1; 1; 5] in
  ∃ q, segm_fw_iou label_hmask pred_imask = Ok (Fin q) ∧ (0 <= q)%Q ∧ (q <= 1)%Q.
Proof.
  intros label_hmask label_imask pred_imask.
  apply (segm_fw_iou_range label_hmask label_imask pred_imask);
    [ | reflexivity | reflexivity | reflexivity | intros H; discriminate H].
  repeat split. intros i Hi.
  destruct i as [|[|i]]; [reflexivity | reflexivity |].
  exfalso. cbv in Hi. lia.
Defined.

(** X18. On a prediction identical to the label, that is when the label is
    the one-hot encoding of the prediction itself, [segm_fw_iou] returns
    the fraction of the pixels whose index is one of the classes
    [0 .. n-1]; it is exactly 1.0 when every pixel has such an index. *)
Theorem segm_fw_iou_identical (hmask imask : ndarray) :
  one_hot_of hmask imask →
  wf_ndarray imask →
  np_size imask ≠ 0 →
  segm_fw_iou hmask imask
  = Ok (Fin (Qred (inject_Z (count_where
                     (fun v => (0 <=? v) && (v <? Z.of_nat (shape0 hmask))) (data imask))
                   / inject_Z (np_size imask))))
  ∧ (Forall (fun v => 0 ≤ v < Z.of_nat (shape0 hmask)) (data imask) →
     segm_fw_iou hmask imask = Ok (Fin 1)).
Proof.
  intros Hoh Hwf Hsize.
  pose proof Hoh as (Hnd & Hnd2 & Hsh & Hpl).
  pose proof (fun i Hi => one_hot_class_facts hmask imask imask i Hoh Hi) as Hfacts.
  cbv zeta in Hfacts.
  assert (Hself : ∀ i, (i < shape0 hmask)%nat →
    np_sum_bool (np_logical_and (np_eq_scalar (data imask) (Z.of_nat i))
                                (np_truthy (np_plane hmask i)))
    = np_sum_bool (np_eq_scalar (data imask) (Z.of_nat i))).
  { intros i Hi. rewrite Hpl by done. apply logical_and_indicator. }
  assert (Hmain : segm_fw_iou hmask imask
    = Ok (Fin (Qred (inject_Z (count_where
                       (fun v => (0 <=? v) && (v <? Z.of_nat (shape0 hmask))) (data imask))
                     / inject_Z (np_size imask))))).
  { rewrite segm_fw_iou_loop; try done.
    - unfold spec_class_sum. do 2 f_equal. apply Qred_complete.
      rewrite (Qsum_filter_eq_np_sum _ _
                 (fun i => np_sum_bool (np_eq_scalar (data imask) (Z.of_nat i)))).
      + now rewrite class_counts_sum.
      + intros i Hi Hc. apply elem_of_seq in Hi.
        apply negb_true_iff, Z.eqb_neq in Hc.
        destruct (Hfacts i) as (E & ? & ? & ?); [lia|].
        rewrite Hself in * by lia. rewrite E in *.
        set (c := np_sum_bool (np_eq_scalar (data imask) (Z.of_nat i))) in *.
        replace (c + c - c) with c by lia.
        rewrite inject_Z_mult. field.
        intros E0. apply (inject_Z_injective c 0) in E0. lia.
      + intros i Hi Hc. apply elem_of_seq in Hi.
        apply negb_false_iff, Z.eqb_eq in Hc.
        destruct (Hfacts i) as (E & ? & ? & ?); lia.
    - intros i Hi. cbv zeta. destruct (Hfacts i Hi) as (_ & ? & ? & ?). lia. }
  split; [exact Hmain|].
  intros Hall. rewrite Hmain. do 2 f_equal.
  rewrite count_where_all.
  - unfold np_size, wf_ndarray in *. rewrite Hwf.
    apply Qred_div_same. unfold np_size in Hsize. lia.
  - intros v Hv. rewrite Forall_forall in Hall. specialize (Hall v Hv).
    apply andb_true_iff. split; [apply Z.leb_le | apply Z.ltb_lt]; lia.
Qed.

Lemma segm_fw_iou_identical_witness :
  let hmask := mk_ndarray [2; 2; 2]%nat [1; 0; 0; 0; 0; 1; 1; 1] in
  let imask := mk_ndarray [2; 2]%nat [0; 1; 1; 1] in
  segm_fw_iou hmask imask = Ok (Fin 1).
Proof.
  intros hmask imask.
  assert (Hoh : one_hot_of hmask imask).
  { repeat split. intros i Hi.
    destruct i as [|[|i]]; [reflexivity | reflexivity |].
    exfalso. cbv in Hi. lia. }
  assert (Hne : np_size imask ≠ 0) by (intros H; discriminate H).
  apply (proj2 (segm_fw_iou_identical hmask imask Hoh eq_refl Hne)).
  repeat constructor; cbv; congruence.
Defined.

(** ** Resizing and cropping *)

(** Resizing the shortest edge to [S] and cropping the centre to [T ≤ S]
    gives a [T] x [T] image from every image that has a pixel. *)
Lemma resize_then_crop (S T : Z) (img : image) :
  0 < T → T ≤ S → 1 ≤ img_h img → 1 ≤ img_w img →
  (out ← ResizeShortestEdge S img; CenterCrop T out) = Ok (mk_image T T).
Proof.
  intros HT HS Hh Hw.
  unfold ResizeShortestEdge.
  destruct (Z.eqb_spec (Z.min (img_h img) (img_w img)) 0) as [E | _]; [lia|].
  set (m := Z.min (img_h img) (img_w img)).
  assert (Hm : 0 < m) by (unfold m; lia).
  assert (Hmq : (0 < inject_Z m)%Q)
    by (change 0%Q with (inject_Z 0); now rewrite <- Zlt_Qlt).
  assert (Hround : ∀ d, m ≤ d →
    S ≤ Qfloor (inject_Z S / inject_Z m * inject_Z d + (1 # 2))).
  { intros d Hd. rewrite <- (Qfloor_Z S) at 1. apply Qfloor_resp_le.
    assert (Hd' : (inject_Z m <= inject_Z d)%Q) by now rewrite <- Zle_Qle.
    assert (HSq : (0 < inject_Z S)%Q)
      by (change 0%Q with (inject_Z 0); rewrite <- Zlt_Qlt; lia).
    assert (Hq : (inject_Z S <= inject_Z S / inject_Z m * inject_Z d)%Q).
    { assert (E : (inject_Z S / inject_Z m * inject_Z d
                   == inject_Z S * inject_Z d / inject_Z m)%Q) by (field; lra).
      rewrite E. apply Qle_shift_div_l; [done | nra]. }
    lra. }
  destruct (Z.ltb_spec (img_h img) (img_w img)) as [Hlt | Hge].
  - pose proof (Hround (img_w img) ltac:(unfold m; lia)) as Hn.
    set (neww := Qfloor _) in *.
    unfold cv2_resize.
    repeat match goal with
    | |- context [(?a <=? ?b)%Z] => destruct (Z.leb_spec a b); [lia|]
    end. cbn [orb mbind result_bind].
    unfold CenterCrop. cbn [img_h img_w].
    rewrite py_assert_true
      by (apply andb_true_iff; split; apply Z.leb_le; lia).
    pose proof (Z.div_mod (neww - T) 2 ltac:(lia)).
    pose proof (Z.mod_pos_bound (neww - T) 2 ltac:(lia)).
    pose proof (Z.div_mod (S - T) 2 ltac:(lia)).
    pose proof (Z.mod_pos_bound (S - T) 2 ltac:(lia)).
    rewrite !slice_len_inside by lia. reflexivity.
  - pose proof (Hround (img_h img) ltac:(unfold m; lia)) as Hn.
    set (newh := Qfloor _) in *.
    unfold cv2_resize.
    repeat match goal with
    | |- context [(?a <=? ?b)%Z] => destruct (Z.leb_spec a b); [lia|]
    end. cbn [orb mbind result_bind].
    unfold CenterCrop. cbn [img_h img_w].
    rewrite py_assert_true
      by (apply andb_true_iff; split; apply Z.leb_le; lia).
    pose proof (Z.div_mod (newh - T) 2 ltac:(lia)).
    pose proof (Z.mod_pos_bound (newh - T) 2 ltac:(lia)).
    pose proof (Z.div_mod (S - T) 2 ltac:(lia)).
    pose proof (Z.mod_pos_bound (S - T) 2 ltac:(lia)).
    rewrite !slice_len_inside by lia. reflexivity.
Qed.

(** X19. The validation augmentors of [get_data], resizing the shortest edge
    to 256 and cropping the centre, turn every image that has a pixel into
    a 224 x 224 image, the input size of the network. *)
Theorem get_data_val_augmentors_size (img : image) :
  1 ≤ img_h img → 1 ≤ img_w img →
  AugmentorList_augment get_data_val_augmentors img = Ok (mk_image 224 224).
Proof.
  intros Hh Hw. unfold AugmentorList_augment, get_data_val_augmentors.
  cbn [fold_left]. change (im ← Ok img; ResizeShortestEdge 256 im)
    with (ResizeShortestEdge 256 img).
  apply resize_then_crop; lia.
Qed.

Lemma get_data_val_augmentors_size_witness :
  AugmentorList_augment get_data_val_augmentors (mk_image 375 500)
  = Ok (mk_image 224 224).
Proof.
  apply (get_data_val_augmentors_size (mk_image 375 500)); simpl; lia.
Defined.

Lemma augment_loop_size_any (self : GoogleNetResize) (rng : nat → Q) (img : image)
    (k pos : nat) :
  nonempty_crops_on self img → unit_draws rng →
  0 < target_shape self → 1 ≤ img_h img → 1 ≤ img_w img →
  augment_loop self rng img k pos
  = Ok (mk_image (target_shape self) (target_shape self)).
Proof.
  intros Hcfg Hrng Htarget Hh Hw.
  revert pos. induction k as [|k IH]; intros pos.
  - cbn [augment_loop]. apply resize_then_crop; lia.
  - cbn [augment_loop].
    destruct Hcfg as (Hc0 & Hc1 & Hlo & Hlh & Hmin & Hmax).
    assert (Harea : (0 < inject_Z (img_h img * img_w img))%Q).
    { change 0%Q with (inject_Z 0). rewrite <- Zlt_Qlt. nia. }
    destruct (candidate_bounds (crop_area_fraction self) (aspect_ratio_low self)
                (aspect_ratio_high self) (rng pos) (rng (pos + 1)%nat)
                (inject_Z (img_h img * img_w img))
                (inject_Z (img_h img * img_w img)))
      as (HaR & H1 & H2); try done; try apply Hrng; try apply Qle_refl.
    destruct (int_sqrt_half_ge1 _ H1) as (ww & -> & Hww).
    cbn [mbind result_bind].
    destruct (Qeq_bool _ 0) eqn:E.
    { apply Qeq_bool_iff in E. rewrite E in HaR. lra. }
    cbn [mbind result_bind].
    destruct (int_sqrt_half_ge1 _ H2) as (hh & -> & Hhh).
    cbn [mbind result_bind].
    destruct (Qlt_bool (rng (pos + 2)%nat) (1 # 2)).
    + destruct ((ww <=? img_h img) && (hh <=? img_w img)) eqn:Hfit.
      * apply andb_true_iff in Hfit as [Hf1 Hf2].
        apply Z.leb_le in Hf1, Hf2. apply resize_crop_size; (done || lia).
      * apply IH.
    + destruct ((hh <=? img_h img) && (ww <=? img_w img)) eqn:Hfit.
      * apply andb_true_iff in Hfit as [Hf1 Hf2].
        apply Z.leb_le in Hf1, Hf2. apply resize_crop_size; (done || lia).
      * apply IH.
Qed.

(** With the default crop parameters no candidate crop is empty on an image
    of five pixels or more. *)
Lemma default_nonempty_crops_on (target : Z) (img : image) :
  5 ≤ img_h img * img_w img →
  nonempty_crops_on
    (mk_GoogleNetResize (crop_area_fraction GoogleNetResize_default)
                        (aspect_ratio_low GoogleNetResize_default)
                        (aspect_ratio_high GoogleNetResize_default) target) img.
Proof.
  intros Harea. unfold nonempty_crops_on. cbn.
  assert (H5 : (5 <= inject_Z (img_h img * img_w img))%Q).
  { change 5%Q with (inject_Z 5). now rewrite <- Zle_Qle. }
  repeat split; try (unfold Qlt, Qle; simpl; lia); lra.
Qed.

(** X20. [GoogleNetResize._augment] gives the target size on images of any
    size, smaller than the target or not, as long as no candidate crop is
    empty on the image: for every outcome of the draws the result is
    [target_shape] x [target_shape]. *)
Theorem GoogleNetResize_augment_size_any (self : GoogleNetResize) (rng : nat → Q)
    (img : image) :
  nonempty_crops_on self img → unit_draws rng →
  0 < target_shape self → 1 ≤ img_h img → 1 ≤ img_w img →
  GoogleNetResize_augment self rng img
  = Ok (mk_image (target_shape self) (target_shape self)).
Proof.
  intros Hcfg Hrng Ht Hh Hw. unfold GoogleNetResize_augment.
  now apply augment_loop_size_any.
Qed.

Lemma GoogleNetResize_augment_size_any_witness :
  GoogleNetResize_augment GoogleNetResize_default (fun _ => 1 # 2) (mk_image 2 3)
  = Ok (mk_image 224 224).
Proof.
  apply (GoogleNetResize_augment_size_any GoogleNetResize_default
           (fun _ => 1 # 2) (mk_image 2 3)).
  - apply (default_nonempty_crops_on 224). simpl. lia.
  - intros i. split; unfold Qle, Qlt; simpl; lia.
  - reflexivity.
  - simpl. lia.
  - simpl. lia.
Defined.

Lemma cv2_resize_ok (src out : image) (dw dh : Z) :
  cv2_resize src dw dh = Ok out → out = mk_image dh dw ∧ 0 < dw ∧ 0 < dh.
Proof.
  unfold cv2_resize.
  destruct (Z.leb_spec (img_h src) 0), (Z.leb_spec (img_w src) 0),
           (Z.leb_spec dw 0), (Z.leb_spec dh 0); simpl; try discriminate.
  intros Hout. split; [congruence | lia].
Qed.

Lemma CenterCrop_ok (T : Z) (img out : image) :
  0 < T → CenterCrop T img = Ok out → out = mk_image T T.
Proof.
  intros HT. unfold CenterCrop.
  destruct ((T <=? img_h img) && (T <=? img_w img)) eqn:E; [|discriminate].
  apply andb_true_iff in E as [E1 E2]. apply Z.leb_le in E1, E2.
  cbn [py_assert mbind result_bind].
  pose proof (Z.div_mod (img_h img - T) 2 ltac:(lia)).
  pose proof (Z.mod_pos_bound (img_h img - T) 2 ltac:(lia)).
  pose proof (Z.div_mod (img_w img - T) 2 ltac:(lia)).
  pose proof (Z.mod_pos_bound (img_w img - T) 2 ltac:(lia)).
  rewrite !slice_len_inside by lia. intros Hout. congruence.
Qed.

Lemma fallback_ok (T : Z) (img out : image) :
  (r ← ResizeShortestEdge T img; CenterCrop T r) = Ok out →
  out = mk_image T T ∧ 0 < T.
Proof.
  unfold ResizeShortestEdge.
  destruct (Z.min (img_h img) (img_w img) =? 0); [discriminate|].
  destruct (img_h img <? img_w img).
  - destruct (cv2_resize img _ T) as [r|e] eqn:E; [|discriminate].
    apply cv2_resize_ok in E as (_ & _ & HT).
    cbn [mbind result_bind]. intros H. split; [|done].
    now apply (CenterCrop_ok T r).
  - destruct (cv2_resize img T _) as [r|e] eqn:E; [|discriminate].
    apply cv2_resize_ok in E as (_ & HT & _).
    cbn [mbind result_bind]. intros H. split; [|done].
    now apply (CenterCrop_ok T r).
Qed.

Lemma augment_loop_ok (self : GoogleNetResize) (rng : nat → Q) (img out : image)
    (k pos : nat) :
  augment_loop self rng img k pos = Ok out →
  out = mk_image (target_shape self) (target_shape self) ∧ 0 < target_shape self.
Proof.
  revert pos. induction k as [|k IH]; intros pos.
  - cbn [augment_loop]. apply fallback_ok.
  - cbn [augment_loop].
    match goal with
    | |- mbind _ (int_sqrt_half ?x) = _ → _ => destruct (int_sqrt_half x) as [ww|e]
    end; [|cbn [mbind result_bind]; discriminate].
    cbn [mbind result_bind].
    destruct (Qeq_bool _ 0); [cbn [mbind result_bind]; discriminate|].
    cbn [mbind result_bind].
    match goal with
    | |- mbind _ (int_sqrt_half ?x) = _ → _ => destruct (int_sqrt_half x) as [hh|e]
    end; [|cbn [mbind result_bind]; discriminate].
    cbn [mbind result_bind].
    destruct (if Qlt_bool (rng (pos + 2)%nat) (1 # 2) then (hh, ww) else (ww, hh))
      as [ww' hh'].
    destruct ((hh' <=? img_h img) && (ww' <=? img_w img)); [|apply IH].
    destruct (if img_w img =? ww' then _ else _) as [[x1 pos1]|e]; [|cbn [mbind result_bind]; discriminate].
    cbn [mbind result_bind].
    destruct (if img_h img =? hh' then _ else _) as [[y1 pos2]|e]; [|cbn [mbind result_bind]; discriminate].
    cbn [mbind result_bind].
    intros H. apply cv2_resize_ok in H as (-> & HT & _). done.
Qed.

(** X21. Whatever the configuration, the image and the draws: when
    [GoogleNetResize._augment] returns at all, the target size is positive
    and the image returned is exactly [target_shape] x [target_shape]; no
    path returns an image of another size. *)
Theorem GoogleNetResize_augment_returns_target (self : GoogleNetResize)
    (rng : nat → Q) (img out : image) :
  GoogleNetResize_augment self rng img = Ok out →
  out = mk_image (target_shape self) (target_shape self) ∧ 0 < target_shape self.
Proof. apply augment_loop_ok. Qed.

Lemma GoogleNetResize_augment_returns_target_witness :
  let self := mk_GoogleNetResize (1 # 2) (1 # 2) 2 7 in
  mk_image 7 7 = mk_image (target_shape self) (target_shape self)
  ∧ 0 < target_shape self.
Proof.
  intros self.
  apply (GoogleNetResize_augment_returns_target self (fun _ => 9 # 10)
           (mk_image 3 40) (mk_image 7 7)).
  vm_compute. reflexivity.
Defined.

(** ** Image preprocessing *)

Lemma zip_with_rev3 {A B C : Type} (f : A → B → C) (px : list A) (b0 b1 b2 : B) :
  length px = 3%nat →
  zip_with f (rev px) (rev [b0; b1; b2]) = rev (zip_with f px [b0; b1; b2]).
Proof.
  destruct px as [|x0 [|x1 [|x2 [|x3 px]]]]; try discriminate. reflexivity.
Qed.

(** X22. The flag [image_bgr] does what its name says: a model reading BGR
    images, as the one [ImageNetModel.__init__] sets up, normalises a
    three-channel image exactly as the model reading RGB normalises the
    same image with its channels reversed; mean and deviation follow the
    channel they belong to. *)
Theorem image_preprocess_bgr {network : Type} (self : ImageNetModel network)
    (image : tensor) :
  image_bgr _ self = true →
  channels image = 3%nat → wf_tensor image →
  ∃ out, image_preprocess (with_rgb self) image = Ok out
         ∧ image_preprocess self (reverse_channels image) = Ok (reverse_channels out)
         ∧ channels out = 3%nat ∧ wf_tensor out.
Proof.
  intros Hbgr Hch Hwf. unfold image_preprocess, with_rgb. rewrite Hbgr.
  cbn [image_bgr]. unfold tf_broadcast, reverse_channels.
  cbn [channels pixel_values length map rev app]. rewrite Hch.
  cbn [Nat.eqb mbind result_bind channels pixel_values].
  refine (ex_intro _ _ (conj eq_refl _)). cbn [channels pixel_values].
  repeat split.
  - apply (f_equal (fun l => Ok (mk_tensor 3 l))).
    rewrite !map_map. unfold wf_tensor in Hwf. rewrite Hch in Hwf.
    induction Hwf as [|px pxs Hpx _ IH]; [done|].
    cbn [map]. rewrite IH. f_equal.
    destruct px as [|x0 [|x1 [|x2 [|x3 px]]]]; try discriminate. reflexivity.
  - unfold wf_tensor in *. cbn [channels pixel_values]. rewrite Hch in Hwf.
    rewrite !Forall_map. eapply Forall_impl; [exact Hwf|].
    intros px Hpx. cbn beta.
    destruct px as [|x0 [|x1 [|x2 [|x3 px]]]]; try discriminate. reflexivity.
Qed.

Lemma image_preprocess_bgr_witness :
  let image := mk_tensor 3 [[255; 128; 0]; [12; 34; 56]]%Q in
  ∃ out, image_preprocess (with_rgb (ImageNetModel_init tt)) image = Ok out
         ∧ image_preprocess (ImageNetModel_init tt) (reverse_channels image)
           = Ok (reverse_channels out)
         ∧ channels out = 3%nat ∧ wf_tensor out.
Proof.
  intros image.
  apply (image_preprocess_bgr (ImageNetModel_init tt) image eq_refl eq_refl).
  repeat constructor.
Defined.

(** ** The data pipeline *)

(** X23. [get_data] leaves the number of processes to [get_imagenet_dataflow],
    which takes half the processor count, at most 40.  So the training
    pipeline logs its warning about too few processes exactly on machines
    with fewer than 32 processors, the validation pipeline never warns, and
    a missing data directory fails the assertion before anything is
    built. *)
Theorem get_data_warning (cpu_count batch_size : Z) (dir : string) :
  (get_data cpu_count true batch_size (Some dir)).1
    = (if cpu_count <? 32 then [dataflow_warning] else [])
  ∧ (∃ ds nr_proc, (get_data cpu_count true batch_size (Some dir)).2
                     = Ok (BatchData (PrefetchDataZMQ ds nr_proc) batch_size false)
                   ∧ nr_proc ≤ 40 ∧ 2 * nr_proc ≤ cpu_count)
  ∧ (get_data cpu_count false batch_size (Some dir)).1 = []
  ∧ (∀ is_train, get_data cpu_count is_train batch_size None
                 = ([], Raise AssertionError)).
Proof.
  pose proof (Z.div_mod cpu_count 2 ltac:(lia)) as Hdm.
  pose proof (Z.mod_pos_bound cpu_count 2 ltac:(lia)) as Hm.
  unfold get_data, get_imagenet_dataflow. cbn [fst snd].
  split; [|split; [|split]].
  - destruct (Z.ltb_spec (Z.min 40 (cpu_count / 2)) 16),
             (Z.ltb_spec cpu_count 32); (done || lia).
  - eexists _, _. split; [reflexivity|]. lia.
  - reflexivity.
  - now intros [|].
Qed.

(** ** Model preparation: every call *)

Section PrepareModelCalls.
Context {network : Type}.
Variable get_model : string → bool → Z → result network.
Variable isfile : string → bool.

(** X24. For every call of [prepare_model]: it returns exactly when the
    registry gives a network and the path, if one is given, names a file; a
    failure of the registry is passed on unchanged, before the file system
    is looked at; the graph is never built; the loader is built only by a
    call that returns it, and the only file tested is the one of the path
    given. *)
Theorem prepare_model_returns (model_name : string) (classes : Z)
    (use_pretrained : bool) (path : option string) :
  let call :=
    prepare_model get_model isfile model_name classes use_pretrained path in
  ((∃ r, call.2 = Ok r)
   ↔ (∃ net, get_model model_name use_pretrained classes = Ok net)
     ∧ (∀ p, path_truthy path = Some p → isfile p = true))
  ∧ (∀ e, get_model model_name use_pretrained classes = Raise e →
       call = ([EvGetModel model_name use_pretrained classes], Raise e))
  ∧ (EvBuildGraph ∉ call.1)
  ∧ (∀ p, EvGetModelLoader p ∈ call.1 →
       ∃ net, call.2 = Ok (ImageNetModel_init net, Some (ModelLoader p)))
  ∧ (∀ p, EvIsFile p ∈ call.1 → path_truthy path = Some p).
Proof.
  intros call. subst call. unfold prepare_model.
  destruct (get_model model_name use_pretrained classes) as [net|e];
    [destruct (path_truthy path) as [p|]; [destruct (isfile p) eqn:Hfile|]|];
    cbn [fst snd app].
  - split; [|split; [|split; [|split]]].
    + split; [|eauto]. intros _. split; [eauto|]. intros q [= <-]. done.
    + discriminate.
    + rewrite !elem_of_cons, elem_of_nil. intuition discriminate.
    + intros q. rewrite !elem_of_cons, elem_of_nil.
      intros [H|[H|[H|[H|[]]]]]; try discriminate.
      injection H as ->. eauto.
    + intros q. rewrite !elem_of_cons, elem_of_nil.
      intros [H|[H|[H|[H|[]]]]]; try discriminate.
      now injection H as ->.
  - split; [|split; [|split; [|split]]].
    + split.
      * intros [r Hr]. discriminate.
      * intros [_ H]. specialize (H p eq_refl). congruence.
    + discriminate.
    + rewrite !elem_of_cons, elem_of_nil. intuition discriminate.
    + intros q. rewrite !elem_of_cons, elem_of_nil.
      intros [H|[H|[]]]; discriminate.
    + intros q. rewrite !elem_of_cons, elem_of_nil.
      intros [H|[H|[]]]; try discriminate.
      now injection H as ->.
  - split; [|split; [|split; [|split]]].
    + split; [|eauto]. intros _. split; [eauto|]. discriminate.
    + discriminate.
    + rewrite !elem_of_cons, elem_of_nil. intuition discriminate.
    + intros q. rewrite !elem_of_cons, elem_of_nil.
      intros [H|[]]; discriminate.
    + intros q. rewrite !elem_of_cons, elem_of_nil.
      intros [H|[]]; discriminate.
  - split; [|split; [|split; [|split]]].
    + split.
      * intros [r Hr]. discriminate.
      * intros [[net Hnet] _]. discriminate.
    + now intros e' [= <-].
    + rewrite !elem_of_cons, elem_of_nil. intuition discriminate.
    + intros q. rewrite !elem_of_cons, elem_of_nil.
      intros [H|[]]; discriminate.
    + intros q. rewrite !elem_of_cons, elem_of_nil.
      intros [H|[]]; discriminate.
Qed.
End PrepareModelCalls.

Lemma prepare_model_returns_witness :
  let get_model := fun (_ : string) (_ : bool) (_ : Z) => Ok tt in
  let isfile := fun p : string => bool_decide (p = "resnet18.npz") in
  ∃ r, (prepare_model get_model isfile "resnet18" 1000 true (Some "resnet18.npz")).2
       = Ok r.
Proof.
  intros get_model isfile.
  apply (proj2 (proj1 (prepare_model_returns get_model isfile "resnet18" 1000 true
                         (Some "resnet18.npz")))).
  split.
  - exists tt. reflexivity.
  - intros p Hp. vm_compute in Hp. injection Hp as <-. reflexivity.
Defined.
